(** * ac2lsl: the bridge from AC variables to LSL streams

    A shallow embedding of [mha/plugins/ac2lsl/ac2lsl.cpp] and the
    properties of its variable registry: the adapter factory
    ([cfg_t::make_or_replace_var]), the per-cycle reconciliation
    ([cfg_t::update_varlist]), the throttle ([cfg_t::process]), the plugin
    entry point ([ac2lsl_t::process]), the construction of a runtime
    configuration ([ac2lsl_t::update]) and the enumeration of the AC space
    ([ac2lsl_t::get_all_names_from_ac_space]).

    Conventions.  C++ [unsigned] and [int32_t] values are integers of [Z]
    with the wrap-around written out ([unsigned_cast], [int32_cast]).
    Pointers are integers of [Z]; memory is a map from cell addresses to
    scalars, one cell per scalar of the pointed-to type.  Functions that
    mutate the object and may throw return an [outcome]: the calls made, the
    state reached and the exception thrown, if any. *)

From Stdlib Require Import ZArith List String Ascii Bool Lia.
From Stdlib Require Import Sorting.Sorted.
From Stdlib Require Import Floats.SpecFloat.
Import ListNotations.
Open Scope Z_scope.

(** ** Machine integers and floats *)

(** Value of an integer converted to (or computed in) C++ [unsigned]. *)
Definition unsigned_cast (x : Z) : Z := x mod 4294967296.

(** Value of an integer converted to [int32_t]. *)
Definition int32_cast (x : Z) : Z :=
  (x + 2147483648) mod 4294967296 - 2147483648.

(** An IEEE 754 single-precision [float] is a [spec_float] of precision 24
    and maximal exponent 128; a [double] holds every such value exactly and
    is represented by the same [spec_float]. *)
Definition float_of_Z (z : Z) : spec_float := binary_normalize 24 128 z 0 false.
Definition float_add : spec_float -> spec_float -> spec_float := SFadd 24 128.
Definition float_div : spec_float -> spec_float -> spec_float := SFdiv 24 128.

(** ** Declarations the plugin takes from headers

    What [ac2lsl.cpp] uses and other files of openMHA or the platform
    declare:

    [mha_algo_comm.h] (the [MHA_AC_*] type ids, pairwise distinct since they
    label the cases of one [switch]), [sched.h] (the scheduling policies),
    [mha.h] ([mha_real_t], the type of [mhaconfig_t::srate], with its
    division by the [unsigned] fragment size and by a [float], the latter
    already widened to the [double] handed to [cfg_t]) and [mha_parser.hh]
    (the tokenizer [MHAParser::StrCnv::str2val] for string vectors). *)
Class external_decls := {
  MHA_AC_INT : Z;
  MHA_AC_FLOAT : Z;
  MHA_AC_DOUBLE : Z;
  MHA_AC_MHAREAL : Z;
  MHA_AC_MHACOMPLEX : Z;
  MHA_AC_distinct :
    NoDup [MHA_AC_INT; MHA_AC_FLOAT; MHA_AC_DOUBLE; MHA_AC_MHAREAL;
           MHA_AC_MHACOMPLEX];
  SCHED_FIFO : Z;
  SCHED_RR : Z;
  mha_real_t : Type;
  real_div_unsigned : mha_real_t -> Z -> mha_real_t;
  real_div_float : mha_real_t -> spec_float -> spec_float;
  str2val : string -> list string
}.

(** ** The AC space *)

(** [comm_var_t], with the fields the plugin reads: the type id, the number
    of entries ([unsigned]) and the address of the data. *)
Record comm_var_t := {
  data_type : Z;
  num_entries : Z;
  data : Z
}.

(** [algo_comm_t]: [get_var] fails ([None], a non-zero return code) or fills
    in a [comm_var_t]; [get_entries], called with a buffer length, returns
    an error code and the string left in the buffer. *)
Record algo_comm_t := {
  get_var : string -> option comm_var_t;
  get_entries : Z -> Z * string
}.

(** A scalar held in a memory cell or pushed in a sample. *)
Inductive scalar :=
| int_val (z : Z)
| float_val (f : spec_float).

Definition memory := Z -> scalar.

(** ** LSL *)

Inductive channel_format_t := cf_float32 | cf_double64 | cf_int32.

(** [lsl::stream_info]; the channel count is an [int32_t]. *)
Record stream_info := {
  info_name : string;
  info_type : string;
  channel_count : Z;
  nominal_srate : spec_float;
  channel_format : channel_format_t;
  info_source_id : string
}.

(** [lsl::stream_info(name, type, channel_count, nominal_srate,
    channel_format, source_id)]: the [unsigned] count given by the plugin is
    converted to the constructor's [int32_t] parameter. *)
Definition lsl_stream_info (name type : string) (count : Z)
    (rate : spec_float) (fmt : channel_format_t) (sid : string) : stream_info :=
  {| info_name := name; info_type := type; channel_count := int32_cast count;
     nominal_srate := rate; channel_format := fmt; info_source_id := sid |}.

(** What [stream_outlet::push_sample(p)] reads: as many consecutive scalars,
    starting at [p], as the stream has channels. *)
Definition read_sample (mem : memory) (p : Z) (count : Z) : list scalar :=
  map (fun i => mem (p + Z.of_nat i)) (seq 0 (Z.to_nat count)).

(** ** Errors, calls and outcomes *)

Inductive MHA_Error :=
| No_such_variable (name : string)
| Unknown_data_type (dt : Z)
| Sched_params_unavailable
| Realtime_thread
| AC_list_too_long
| AC_handle_invalid
| No_runtime_config.

(** The calls the properties count or observe. *)
Inductive call :=
| Get_var (name : string)
| Set_buf_address (name : string) (p : Z)
| Make_or_replace_var (name : string) (v : comm_var_t)
| Push_sample (info : stream_info) (sample : list scalar).

(** What a function that returns a value does: it returns or throws. *)
Inductive result (A : Type) :=
| Returns (a : A)
| Throws (e : MHA_Error).
Arguments Returns {A} _.
Arguments Throws {A} _.

Record outcome (S : Type) := {
  calls : list call;
  final : S;
  thrown : option MHA_Error
}.
Arguments calls {S} _.
Arguments final {S} _.
Arguments thrown {S} _.

Definition done {S} (s : S) : outcome S :=
  {| calls := []; final := s; thrown := None |}.

Definition does {S} (l : list call) (s : S) : outcome S :=
  {| calls := l; final := s; thrown := None |}.

Definition throw {S} (e : MHA_Error) (s : S) : outcome S :=
  {| calls := []; final := s; thrown := Some e |}.

(** Sequencing: the continuation runs unless an exception is in flight. *)
Definition and_then {S} (o : outcome S) (k : S -> outcome S) : outcome S :=
  match thrown o with
  | Some _ => o
  | None =>
      let o' := k (final o) in
      {| calls := calls o ++ calls o'; final := final o';
         thrown := thrown o' |}
  end.

Notation "o ;; k" := (and_then o k) (at level 61, left associativity).

Section Bridge.
Context {X : external_decls}.

(** ** Bridge variables: [save_var_base_t] and its implementations *)

(** The instances of the generic [save_var_t<T>]. *)
Inductive elem_t := elem_int | elem_float | elem_double | elem_mha_real.

(** [save_var_t<T>] holds the stream, the buffer and the type id;
    [save_var_t<mha_complex_t>] holds the stream and the buffer. *)
Inductive save_var_base_t :=
| save_var_t (T : elem_t) (stream : stream_info) (buf : Z) (data_type_ : Z)
| save_var_complex_t (stream : stream_info) (buf : Z).

Definition get_buf_address (a : save_var_base_t) : Z :=
  match a with
  | save_var_t _ _ buf _ => buf
  | save_var_complex_t _ buf => buf
  end.

Definition set_buf_address (a : save_var_base_t) (p : Z) : save_var_base_t :=
  match a with
  | save_var_t T stream _ dt => save_var_t T stream p dt
  | save_var_complex_t stream _ => save_var_complex_t stream p
  end.

Definition info (a : save_var_base_t) : stream_info :=
  match a with
  | save_var_t _ stream _ _ => stream
  | save_var_complex_t stream _ => stream
  end.

(** The method [data_type()]. *)
Definition var_data_type (a : save_var_base_t) : Z :=
  match a with
  | save_var_t _ _ _ dt => dt
  | save_var_complex_t _ _ => MHA_AC_MHACOMPLEX
  end.

(** [mha_complex_t] is a struct of two reals, [re] then [im]: element [i]
    of an array at [buf] has its real part in cell [buf + 2 i] and its
    imaginary part in the next one. *)
Definition re_address (buf i : Z) : Z := buf + 2 * i.
Definition im_address (buf i : Z) : Z := buf + 2 * i + 1.

(** [send_frame()]: [stream.push_sample(buf)], and
    [stream.push_sample(&buf[0].re)] for the complex specialization. *)
Definition send_frame (a : save_var_base_t) (mem : memory) : list call :=
  match a with
  | save_var_t _ stream buf _ =>
      [Push_sample stream (read_sample mem buf (channel_count stream))]
  | save_var_complex_t stream buf =>
      [Push_sample stream
         (read_sample mem (re_address buf 0) (channel_count stream))]
  end.

(** ** The runtime configuration [cfg_t] *)

(** [std::map<std::string, std::unique_ptr<save_var_base_t>>]: the entries
    in increasing key order. *)
Definition varlist_t := list (string * save_var_base_t).

(** [varlist[name] = a]: replaces the value of an existing key, inserts a
    new key at its place in the order. *)
Fixpoint map_assign (name : string) (a : save_var_base_t) (l : varlist_t)
    : varlist_t :=
  match l with
  | [] => [(name, a)]
  | (k, b) :: l' =>
      match String.compare name k with
      | Eq => (name, a) :: l'
      | Lt => (name, a) :: l
      | Gt => (k, b) :: map_assign name a l'
      end
  end.

Fixpoint map_find (name : string) (l : varlist_t) : option save_var_base_t :=
  match l with
  | [] => None
  | (k, b) :: l' => if String.eqb name k then Some b else map_find name l'
  end.

Record cfg_t := {
  varlist : varlist_t;
  skipcnt : Z;
  skip : Z;
  srate : spec_float;
  source_id : string
}.

Definition set_varlist (c : cfg_t) (l : varlist_t) : cfg_t :=
  {| varlist := l; skipcnt := skipcnt c; skip := skip c; srate := srate c;
     source_id := source_id c |}.

Definition set_skipcnt (c : cfg_t) (n : Z) : cfg_t :=
  {| varlist := varlist c; skipcnt := n; skip := skip c; srate := srate c;
     source_id := source_id c |}.

(** The bridge variable built by each case of the [switch] in
    [make_or_replace_var]; [None] is the [default] case. *)
Definition make_var (c : cfg_t) (name : string) (v : comm_var_t)
    : option save_var_base_t :=
  if data_type v =? MHA_AC_INT then
    Some (save_var_t elem_int
            (lsl_stream_info name "MHA_AC_INT" (num_entries v) (srate c)
               cf_int32 (source_id c))
            (data v) (data_type v))
  else if data_type v =? MHA_AC_FLOAT then
    Some (save_var_t elem_float
            (lsl_stream_info name "MHA_AC_FLOAT" (num_entries v) (srate c)
               cf_float32 (source_id c))
            (data v) (data_type v))
  else if data_type v =? MHA_AC_DOUBLE then
    Some (save_var_t elem_double
            (lsl_stream_info name "MHA_AC_DOUBLE" (num_entries v) (srate c)
               cf_double64 (source_id c))
            (data v) (data_type v))
  else if data_type v =? MHA_AC_MHAREAL then
    Some (save_var_t elem_mha_real
            (lsl_stream_info name "MHA_AC_MHAREAL" (num_entries v) (srate c)
               cf_float32 (source_id c))
            (data v) (data_type v))
  else if data_type v =? MHA_AC_MHACOMPLEX then
    Some (save_var_complex_t
            (lsl_stream_info name "MHA_AC_COMPLEX"
               (unsigned_cast (2 * num_entries v)) (srate c)
               cf_float32 (source_id c))
            (data v))
  else None.

(** [cfg_t::make_or_replace_var]. *)
Definition make_or_replace_var (name : string) (v : comm_var_t) (c : cfg_t)
    : outcome cfg_t :=
  match make_var c name v with
  | Some a =>
      does [Make_or_replace_var name v]
        (set_varlist c (map_assign name a (varlist c)))
  | None =>
      {| calls := [Make_or_replace_var name v]; final := c;
         thrown := Some (Unknown_data_type (data_type v)) |}
  end.

(** The channel count [update_varlist] expects for a descriptor in its last
    test: [v.data_type==MHA_AC_MHACOMPLEX ? v.num_entries*2 : v.num_entries]. *)
Definition expected_channel_count (v : comm_var_t) : Z :=
  if data_type v =? MHA_AC_MHACOMPLEX
  then unsigned_cast (num_entries v * 2)
  else num_entries v.

(** The body of the loop of [cfg_t::update_varlist] for the entry [var];
    [var.second->set_buf_address] changes the object that the map holds
    under the key [var.first]. *)
Definition update_var (ac : algo_comm_t) (var : string * save_var_base_t)
    (c : cfg_t) : outcome cfg_t :=
  match get_var ac (fst var) with
  | None =>
      {| calls := [Get_var (fst var)]; final := c;
         thrown := Some (No_such_variable (fst var)) |}
  | Some v =>
      if negb (get_buf_address (snd var) =? data v)
         && (unsigned_cast (channel_count (info (snd var))) =? num_entries v)
         && (var_data_type (snd var) =? data_type v)
      then
        does [Get_var (fst var); Set_buf_address (fst var) (data v)]
          (set_varlist c
             (map_assign (fst var) (set_buf_address (snd var) (data v))
                (varlist c)))
      else if negb (var_data_type (snd var) =? data_type v) then
        does [Get_var (fst var)] c ;; make_or_replace_var (fst var) v
      else if negb (unsigned_cast (channel_count (info (snd var)))
                    =? expected_channel_count v) then
        does [Get_var (fst var)] c ;; make_or_replace_var (fst var) v
      else
        does [Get_var (fst var)] c
  end.

(** The loop over the entries [vars] of the map.  Each entry is visited
    once and the body changes the value of its own key only, so that
    [var.second] is the value the map held when the loop began
    ([update_varlist_reads_map] below). *)
Fixpoint update_vars (ac : algo_comm_t) (vars : varlist_t) (c : cfg_t)
    : outcome cfg_t :=
  match vars with
  | [] => done c
  | var :: rest => update_var ac var c ;; update_vars ac rest
  end.

(** [cfg_t::update_varlist]. *)
Definition update_varlist (ac : algo_comm_t) (c : cfg_t) : outcome cfg_t :=
  update_vars ac (varlist c) c.

(** The loop of [update_varlist] with [var.second] read from the map when
    the key is visited. *)
Fixpoint update_keys (ac : algo_comm_t) (keys : list string) (c : cfg_t)
    : outcome cfg_t :=
  match keys with
  | [] => done c
  | k :: rest =>
      match map_find k (varlist c) with
      | Some a => update_var ac (k, a) c ;; update_keys ac rest
      | None => update_keys ac rest c
      end
  end.

(** The [for] loop of [cfg_t::process] that sends a frame of every entry. *)
Definition send_frames (mem : memory) (l : varlist_t) : list call :=
  flat_map (fun var => send_frame (snd var) mem) l.

(** [cfg_t::process]. *)
Definition process (ac : algo_comm_t) (mem : memory) (c : cfg_t)
    : outcome cfg_t :=
  update_varlist ac c ;;
  (fun c =>
     if skipcnt c =? 0 then
       does (send_frames mem (varlist c)) (set_skipcnt c (skip c))
     else
       done (set_skipcnt c (unsigned_cast (skipcnt c - 1)))).

(** The loop of the constructor of [cfg_t] over the variable names. *)
Fixpoint resolve_vars (ac : algo_comm_t) (varnames : list string) (c : cfg_t)
    : outcome cfg_t :=
  match varnames with
  | [] => done c
  | name :: rest =>
      match get_var ac name with
      | None =>
          {| calls := [Get_var name]; final := c;
             thrown := Some (No_such_variable name) |}
      | Some v =>
          does [Get_var name] c ;; make_or_replace_var name v ;;
          resolve_vars ac rest
      end
  end.

(** The constructor [cfg_t::cfg_t(ac, skip, source_id, varnames, rate)]. *)
Definition new_cfg_t (ac : algo_comm_t) (skip_ : Z) (source_id_ : string)
    (varnames_ : list string) (rate_ : spec_float) : outcome cfg_t :=
  resolve_vars ac varnames_
    {| varlist := []; skipcnt := skip_; skip := skip_; srate := rate_;
       source_id := source_id_ |}.

(** ** The plugin class [ac2lsl_t] *)

(** [mhaconfig_t], with the fields [update] reads. *)
Record mhaconfig_t := {
  cf_srate : mha_real_t;
  cf_fragsize : Z
}.

(** The configuration variables of the plugin ([vars], [source_id],
    [rt_strict], [activate], [skip], here with the prefix [par_] where a
    field of [cfg_t] has the same name), its flag [is_first_run], and the
    state it inherits from [MHAPlugin::plugin_t<cfg_t>]: [is_prepared],
    [input_cfg], the current runtime configuration [cfg] and the
    configuration pushed last and not polled yet. *)
Record ac2lsl_t := {
  vars : list string;
  par_source_id : string;
  rt_strict : bool;
  activate : bool;
  par_skip : Z;
  is_first_run : bool;
  is_prepared : bool;
  input_cfg : mhaconfig_t;
  cfg : option cfg_t;
  pushed : option cfg_t
}.

Definition set_is_first_run (p : ac2lsl_t) (b : bool) : ac2lsl_t :=
  {| vars := vars p; par_source_id := par_source_id p;
     rt_strict := rt_strict p; activate := activate p;
     par_skip := par_skip p; is_first_run := b;
     is_prepared := is_prepared p; input_cfg := input_cfg p;
     cfg := cfg p; pushed := pushed p |}.

Definition set_cfg (p : ac2lsl_t) (current next : option cfg_t) : ac2lsl_t :=
  {| vars := vars p; par_source_id := par_source_id p;
     rt_strict := rt_strict p; activate := activate p;
     par_skip := par_skip p; is_first_run := is_first_run p;
     is_prepared := is_prepared p; input_cfg := input_cfg p;
     cfg := current; pushed := next |}.

(** Modelled from the spec: [push_config] and [poll_config] of
    [MHAPlugin::plugin_t] ([mha_plugin.hh] is not part of this file), the
    build-new-config, publish, retire-old-config swap: the processing path
    sees the configuration published last, or the prior one when nothing was
    published since; polling without any configuration is an error. *)
Definition push_config (c : cfg_t) (p : ac2lsl_t) : ac2lsl_t :=
  set_cfg p (cfg p) (Some c).

Definition poll_config (p : ac2lsl_t) : outcome ac2lsl_t :=
  match pushed p with
  | Some c => done (set_cfg p (Some c) None)
  | None =>
      match cfg p with
      | Some _ => done p
      | None => throw No_runtime_config p
      end
  end.

(** The check of the first run in [ac2lsl_t::process]; [sched] is what
    [pthread_getschedparam] returns for the calling thread: its return code
    and the scheduling policy. *)
Definition rt_check (sched : Z * Z) (p : ac2lsl_t) : outcome ac2lsl_t :=
  if is_first_run p then
    if rt_strict p then
      let p := set_is_first_run p false in
      if negb (fst sched =? 0) then throw Sched_params_unavailable p
      else if (snd sched =? SCHED_FIFO) || (snd sched =? SCHED_RR)
           then throw Realtime_thread p
           else done p
    else done p
  else done p.

(** [cfg->process()]. *)
Definition cfg_process (ac : algo_comm_t) (mem : memory) (p : ac2lsl_t)
    : outcome ac2lsl_t :=
  match cfg p with
  | Some c =>
      let o := process ac mem c in
      {| calls := calls o; final := set_cfg p (Some (final o)) (pushed p);
         thrown := thrown o |}
  | None => throw No_runtime_config p
  end.

(** [ac2lsl_t::process()]. *)
Definition ac2lsl_t_process (sched : Z * Z) (ac : algo_comm_t) (mem : memory)
    (p : ac2lsl_t) : outcome ac2lsl_t :=
  rt_check sched p ;; poll_config ;;
  (fun p => if activate p then cfg_process ac mem p else done p).

(** The rate [update] hands to [cfg_t]:
    [input_cfg().srate/input_cfg().fragsize/(skip.data+1.0f)]. *)
Definition stream_rate (cf : mhaconfig_t) (skip_data : Z) : spec_float :=
  real_div_float (real_div_unsigned (cf_srate cf) (cf_fragsize cf))
    (float_add (float_of_Z skip_data) (float_of_Z 1)).

(** [ac2lsl_t::update()]. *)
Definition update (ac : algo_comm_t) (p : ac2lsl_t) : outcome ac2lsl_t :=
  if is_prepared p then
    let o := new_cfg_t ac (unsigned_cast (par_skip p)) (par_source_id p)
               (vars p) (stream_rate (input_cfg p) (par_skip p)) in
    match thrown o with
    | Some e => {| calls := calls o; final := p; thrown := Some e |}
    | None => {| calls := calls o; final := push_config (final o) p;
                 thrown := None |}
    end
  else done p.

(** ** Enumeration of the AC space *)

(** The [do ... while] loop of [get_all_names_from_ac_space], entered with
    the current [cstr_len]: the lengths of the buffers allocated, and either
    the error code and string of the last call of [get_entries] or the
    exception.  [None] when [fuel] iterations did not end the loop. *)
Fixpoint get_entries_loop (fuel : nat) (ac : algo_comm_t) (cstr_len : Z)
    : option (list Z * result (Z * string)) :=
  match fuel with
  | O => None
  | S fuel' =>
      let cstr_len := unsigned_cast (Z.shiftl cstr_len 1) in
      if 1048576 <? cstr_len then Some ([], Throws AC_list_too_long)
      else
        let r := get_entries ac cstr_len in
        if fst r =? -3 then
          match get_entries_loop fuel' ac cstr_len with
          | Some (lens, res) => Some (cstr_len :: lens, res)
          | None => None
          end
        else Some ([cstr_len], Returns r)
  end.

(** [ac2lsl_t::get_all_names_from_ac_space]. *)
Definition get_all_names_from_ac_space (fuel : nat) (ac : algo_comm_t)
    : option (list Z * result (list string)) :=
  match get_entries_loop fuel ac 512 with
  | None => None
  | Some (lens, Throws e) => Some (lens, Throws e)
  | Some (lens, Returns r) =>
      if fst r =? -1 then Some (lens, Throws AC_handle_invalid)
      else Some (lens, Returns (str2val ("[" ++ snd r ++ "]")))
  end.

(** ** Observations on runs *)

Definition is_push (x : call) : bool :=
  match x with Push_sample _ _ => true | _ => false end.

Definition is_set_buf_address (name : string) (x : call) : bool :=
  match x with Set_buf_address n _ => String.eqb n name | _ => false end.

Definition is_rebuild (name : string) (x : call) : bool :=
  match x with Make_or_replace_var n _ => String.eqb n name | _ => false end.

(** The samples pushed among the calls [l]. *)
Definition pushes (l : list call) : list call := filter is_push l.

(** How often [set_buf_address] was called on the bridge variable [name],
    and how often [make_or_replace_var] was called for it. *)
Definition count_set_buf_address (name : string) (l : list call) : nat :=
  List.length (filter (is_set_buf_address name) l).

Definition count_rebuilds (name : string) (l : list call) : nat :=
  List.length (filter (is_rebuild name) l).

(** The frame of one bridge variable: one sample of as many scalars as the
    stream has channels, read at the buffer address. *)
Definition frame (mem : memory) (var : string * save_var_base_t) : call :=
  Push_sample (info (snd var))
    (read_sample mem (get_buf_address (snd var))
       (channel_count (info (snd var)))).

(** Consecutive calls of [cfg_t::process], one per processing cycle, each
    with the AC space and memory of its cycle; an exception ends the run. *)
Fixpoint run (inputs : list (algo_comm_t * memory)) (c : cfg_t)
    : list (outcome cfg_t) :=
  match inputs with
  | [] => []
  | (ac, mem) :: rest =>
      let o := process ac mem c in
      o :: match thrown o with
           | None => run rest (final o)
           | Some _ => []
           end
  end.

(** The configurations of the epoch that starts with [c0]: those reached
    from it by calls of [cfg_t::process]. *)
Inductive epoch (c0 : cfg_t) : cfg_t -> Prop :=
| epoch_start : epoch c0 c0
| epoch_cycle (c : cfg_t) (ac : algo_comm_t) (mem : memory) :
    epoch c0 c -> epoch c0 (final (process ac mem c)).

(** The array of complex numbers [cs] lies at [buf]. *)
Definition holds_complex (mem : memory) (buf : Z)
    (cs : list (spec_float * spec_float)) : Prop :=
  forall (i : nat) (z : spec_float * spec_float),
    nth_error cs i = Some z ->
    mem (re_address buf (Z.of_nat i)) = float_val (fst z) /\
    mem (im_address buf (Z.of_nat i)) = float_val (snd z).

(** re(0), im(0), re(1), im(1), ... *)
Definition interleaved (cs : list (spec_float * spec_float)) : list scalar :=
  flat_map (fun z => [float_val (fst z); float_val (snd z)]) cs.

(** The contract of [get_entries] for a list of variables that needs a
    buffer of [need] characters: error code -3 for a shorter buffer, success
    otherwise. *)
Definition needs_buffer (ac : algo_comm_t) (need : Z) : Prop :=
  forall len : Z,
    (len < need -> fst (get_entries ac len) = -3) /\
    (need <= len -> fst (get_entries ac len) = 0).

(** ** Invariants *)

(** The constant part of a configuration: [skip], [srate], [source_id], and
    with them the counter, which only [process] touches. *)
Definition same_settings (c c' : cfg_t) : Prop :=
  skipcnt c' = skipcnt c /\ skip c' = skip c /\ srate c' = srate c /\
  source_id c' = source_id c.

(** The key [k] of the map is not dropped from [c] to [c']. *)
Definition keeps_key (k : string) (c c' : cfg_t) : Prop :=
  In k (map fst (varlist c)) -> In k (map fst (varlist c')).

(** Every stream of the configuration declares the rate [r], which is also
    the rate the factory uses. *)
Definition declares (r : spec_float) (c : cfg_t) : Prop :=
  srate c = r /\
  forall var, In var (varlist c) -> nominal_srate (info (snd var)) = r.

(** The entries are in strictly increasing key order, as in a [std::map]. *)
Definition key_lt (x y : string * save_var_base_t) : Prop :=
  String.compare (fst x) (fst y) = Lt.

Definition sorted (l : varlist_t) : Prop := StronglySorted key_lt l.

(** The invariant of the map during a reconciliation over the entries
    [vars]: sorted, with the keys it started with. *)
Definition same_map (keys : list string) (c : cfg_t) : Prop :=
  sorted (varlist c) /\ map fst (varlist c) = keys.

(** The buffer lengths of the attempts: 1024, 2048, ... *)
Definition doubling (lens : list Z) : Prop :=
  forall (i : nat) (len : Z),
    nth_error lens i = Some len -> len = 1024 * 2 ^ Z.of_nat i.

(** ** Agreement of a bridge variable with a descriptor *)

(** The type ids the factory has a case for. *)
Definition supported (v : comm_var_t) : Prop :=
  In (data_type v)
    [MHA_AC_INT; MHA_AC_FLOAT; MHA_AC_DOUBLE; MHA_AC_MHAREAL;
     MHA_AC_MHACOMPLEX].

(** The bridge variable [a] passes the three tests of [update_varlist] for
    the descriptor [v]: same address, same type id, and the channel count
    that the last test expects. *)
Definition in_sync (a : save_var_base_t) (v : comm_var_t) : Prop :=
  get_buf_address a = data v /\
  var_data_type a = data_type v /\
  unsigned_cast (channel_count (info a)) = expected_channel_count v.

(** The stream of a bridge variable carries the label and the channel
    format of the case of the factory that builds this kind of bridge
    variable. *)
Definition stream_of_type (a : save_var_base_t) : Prop :=
  match a with
  | save_var_t elem_int s _ dt =>
      dt = MHA_AC_INT /\ info_type s = "MHA_AC_INT"%string /\
      channel_format s = cf_int32
  | save_var_t elem_float s _ dt =>
      dt = MHA_AC_FLOAT /\ info_type s = "MHA_AC_FLOAT"%string /\
      channel_format s = cf_float32
  | save_var_t elem_double s _ dt =>
      dt = MHA_AC_DOUBLE /\ info_type s = "MHA_AC_DOUBLE"%string /\
      channel_format s = cf_double64
  | save_var_t elem_mha_real s _ dt =>
      dt = MHA_AC_MHAREAL /\ info_type s = "MHA_AC_MHAREAL"%string /\
      channel_format s = cf_float32
  | save_var_complex_t s _ =>
      info_type s = "MHA_AC_COMPLEX"%string /\ channel_format s = cf_float32
  end.

(** Every stream of the configuration is named after its key, carries the
    source id of the configuration and has the label and format of its
    kind. *)
Definition well_formed (c : cfg_t) : Prop :=
  forall var, In var (varlist c) ->
    info_name (info (snd var)) = fst var /\
    info_source_id (info (snd var)) = source_id c /\
    stream_of_type (snd var).

(** The configuration has the source id [sid] and is well formed. *)
Definition well_formed_for (sid : string) (c : cfg_t) : Prop :=
  source_id c = sid /\ well_formed c.

(** The number of samples pushed in the cycles [outs]. *)
Definition pushed_samples (outs : list (outcome cfg_t)) : nat :=
  List.length (flat_map (fun o => pushes (calls o)) outs).

(** [x] pushes a sample to the stream named [name]. *)
Definition is_push_to (name : string) (x : call) : bool :=
  match x with
  | Push_sample s _ => String.eqb (info_name s) name
  | _ => false
  end.

(** The number of samples pushed to the stream named [name] in the cycles
    [outs]. *)
Definition pushed_samples_to (name : string) (outs : list (outcome cfg_t))
    : nat :=
  List.length (flat_map (fun o => filter (is_push_to name) (calls o)) outs).

(** ** [prepare] and [release] *)

(** The locks of the configuration variables [vars] and [rt_strict]
    ([setlock]). *)
Record parser_locks := {
  vars_lock : bool;
  rt_strict_lock : bool
}.

Definition set_vars (p : ac2lsl_t) (l : list string) : ac2lsl_t :=
  {| vars := l; par_source_id := par_source_id p;
     rt_strict := rt_strict p; activate := activate p;
     par_skip := par_skip p; is_first_run := is_first_run p;
     is_prepared := is_prepared p; input_cfg := input_cfg p;
     cfg := cfg p; pushed := pushed p |}.

(** The end of [prepare] once [vars] is set: [update] runs; when it
    throws, both locks are released and the exception is thrown again,
    otherwise both locks stay taken. *)
Definition prepare_update (ac : algo_comm_t) (p : ac2lsl_t)
    : outcome (ac2lsl_t * parser_locks) :=
  let o := update ac p in
  {| calls := calls o;
     final := (final o,
               match thrown o with
               | Some _ => {| vars_lock := false; rt_strict_lock := false |}
               | None => {| vars_lock := true; rt_strict_lock := true |}
               end);
     thrown := thrown o |}.

(** [ac2lsl_t::prepare]: both locks are taken; an empty [vars] is
    replaced by the names of the AC space; [update] runs; an [MHA_Error]
    from either releases both locks and is thrown again.  [None] when the
    enumeration ran out of [fuel]. *)
Definition prepare (fuel : nat) (ac : algo_comm_t) (p : ac2lsl_t)
    : option (outcome (ac2lsl_t * parser_locks)) :=
  match vars p with
  | [] =>
      match get_all_names_from_ac_space fuel ac with
      | None => None
      | Some (_, Throws e) =>
          Some {| calls := [];
                  final := (p, {| vars_lock := false;
                                  rt_strict_lock := false |});
                  thrown := Some e |}
      | Some (_, Returns names) => Some (prepare_update ac (set_vars p names))
      end
  | _ :: _ => Some (prepare_update ac p)
  end.

(** [ac2lsl_t::release]. *)
Definition release (pl : ac2lsl_t * parser_locks) : ac2lsl_t * parser_locks :=
  (set_is_first_run (fst pl) true,
   {| vars_lock := false; rt_strict_lock := false |}).

End Bridge.

(** ** The declarations of openMHA on Linux

    The type ids of [mha_algo_comm.h], the policies of [sched.h], [float]
    for [mha_real_t], and a tokenizer that splits the bracketed list at
    spaces. *)

Fixpoint split_words (s : string) (word : string) : list string :=
  match s with
  | EmptyString => if String.eqb word "" then [] else [word]
  | String ch s' =>
      if (Ascii.eqb ch " " || Ascii.eqb ch "[" || Ascii.eqb ch "]")%bool then
        if String.eqb word "" then split_words s' ""
        else word :: split_words s' ""
      else split_words s' (word ++ String ch "")
  end.

Definition openMHA : external_decls :=
  {| MHA_AC_INT := 2; MHA_AC_FLOAT := 4; MHA_AC_DOUBLE := 5;
     MHA_AC_MHAREAL := 3; MHA_AC_MHACOMPLEX := 6;
     MHA_AC_distinct :=
       ltac:(repeat constructor; simpl; intuition discriminate);
     SCHED_FIFO := 1; SCHED_RR := 2;
     mha_real_t := spec_float;
     real_div_unsigned := fun x n => float_div x (float_of_Z n);
     real_div_float := float_div;
     str2val := fun s => split_words s "" |}.

(** ** Example inputs *)

Fixpoint ac_lookup (vars : list (string * comm_var_t)) (name : string)
    : option comm_var_t :=
  match vars with
  | [] => None
  | (k, v) :: vars' => if String.eqb name k then Some v else ac_lookup vars' name
  end.

(** An AC space that holds the variables [vars]; [get_entries] lists their
    names, separated by spaces, when the buffer has room for the list and
    its terminator. *)
Definition ac_space (vars : list (string * comm_var_t)) : algo_comm_t :=
  {| get_var := ac_lookup vars;
     get_entries := fun len =>
       let entries := String.concat " " (map fst vars) in
       if Z.of_nat (String.length entries) <? len then (0, entries)
       else (-3, EmptyString) |}.

(** An AC space whose list of variables needs a buffer of 300 KiB. *)
Definition large_ac_space : algo_comm_t :=
  {| get_var := fun _ => None;
     get_entries := fun len =>
       if len <? 307200 then (-3, EmptyString) else (0, "level spec"%string) |}.

(** An AC space whose list of variables needs a buffer of 2 MiB. *)
Definition huge_ac_space : algo_comm_t :=
  {| get_var := fun _ => None;
     get_entries := fun len =>
       if len <? 2097152 then (-3, EmptyString) else (0, "level spec"%string) |}.

(** A pipeline of 44100 Hz with fragments of 64 samples. *)
Definition pipeline : mhaconfig_t (X := openMHA) :=
  @Build_mhaconfig_t openMHA (float_of_Z 44100) 64.

(** The variable [level]: four floats at address 1000, the cells from there
    on holding 0.0, 1.0, 2.0, ... *)
Definition level_ac : algo_comm_t :=
  ac_space [("level"%string,
             {| data_type := MHA_AC_FLOAT (external_decls := openMHA);
                num_entries := 4; data := 1000 |})].

Definition level_mem : memory := fun p => float_val (float_of_Z (p - 1000)).

(** The configuration for [level] with the skip interval [k]. *)
Definition level_cfg (k : Z) : cfg_t :=
  final (new_cfg_t (X := openMHA) level_ac k EmptyString ["level"%string]
           (stream_rate (X := openMHA) pipeline k)).

(** The variable [spec]: [n] complex numbers at address [p]; the cells from
    100 on hold 1.0, 2.0, 3.0, ... *)
Definition spec_ac (n p : Z) : algo_comm_t :=
  ac_space [("spec"%string,
             {| data_type := MHA_AC_MHACOMPLEX (external_decls := openMHA);
                num_entries := n; data := p |})].

Definition spec_mem : memory := fun p => float_val (float_of_Z (p - 99)).

(** The configuration for [spec] with three complex numbers at 100. *)
Definition spec_cfg : cfg_t :=
  final (new_cfg_t (X := openMHA) (spec_ac 3 100) 0 EmptyString
           ["spec"%string] (stream_rate (X := openMHA) pipeline 0)).

(** The variables [a], a float, and [b], an int, and their configuration. *)
Definition ab_ac : algo_comm_t :=
  ac_space [("a"%string,
             {| data_type := MHA_AC_FLOAT (external_decls := openMHA);
                num_entries := 1; data := 10 |});
            ("b"%string,
             {| data_type := MHA_AC_INT (external_decls := openMHA);
                num_entries := 1; data := 20 |})].

Definition ab_cfg : cfg_t :=
  final (new_cfg_t (X := openMHA) ab_ac 0 EmptyString
           ["a"%string; "b"%string] (stream_rate (X := openMHA) pipeline 0)).

(** Later [b] is gone; [a] is still a float, or has become a variable of
    type id 1, which the plugin does not support. *)
Definition a_only_ac : algo_comm_t :=
  ac_space [("a"%string,
             {| data_type := MHA_AC_FLOAT (external_decls := openMHA);
                num_entries := 1; data := 10 |})].

Definition a_retyped_ac : algo_comm_t :=
  ac_space [("a"%string, {| data_type := 1; num_entries := 1; data := 10 |})].

(** The plugin, set up for [level] with the skip interval [k], and the
    plugin after [update] built its first configuration, before the first
    call of [process]. *)
Definition plugin (k : Z) (active : bool) : ac2lsl_t (X := openMHA) :=
  {| vars := ["level"%string]; par_source_id := EmptyString;
     rt_strict := true; activate := active; par_skip := k;
     is_first_run := true; is_prepared := true;
     input_cfg := pipeline; cfg := None; pushed := None |}.

Definition prepared_plugin (k : Z) (active : bool) : ac2lsl_t (X := openMHA) :=
  final (update (X := openMHA) level_ac (plugin k active)).

(** Four cycles with [level] in the AC space. *)
Definition level_cycles : list (algo_comm_t * memory) :=
  repeat (level_ac, level_mem) 4.

(** The complex numbers (1,2), (3,4), (5,6). *)
Definition spec_values : list (spec_float * spec_float) :=
  [(float_of_Z 1, float_of_Z 2); (float_of_Z 3, float_of_Z 4);
   (float_of_Z 5, float_of_Z 6)].

(** The rate that the stream [name] of the configuration published by the
    plugin declares. *)
Definition published_rate (p : ac2lsl_t (X := openMHA)) (name : string)
    : option spec_float :=
  match pushed p with
  | Some c =>
      match map_find name (varlist c) with
      | Some a => Some (nominal_srate (info a))
      | None => None
      end
  | None => None
  end.

(** ** More example inputs *)

(** An AC space in which [level] is the variable [v]. *)
Definition level_at (v : comm_var_t) : algo_comm_t :=
  ac_space [("level"%string, v)].

(** [level] as a complex variable of four entries. *)
Definition level_complex : comm_var_t :=
  {| data_type := MHA_AC_MHACOMPLEX (external_decls := openMHA);
     num_entries := 4; data := 1000 |}.

(** [level] grown to eight floats. *)
Definition level_grown : comm_var_t :=
  {| data_type := MHA_AC_FLOAT (external_decls := openMHA);
     num_entries := 8; data := 1000 |}.

(** [level] moved to the address 2000. *)
Definition level_moved : comm_var_t :=
  {| data_type := MHA_AC_FLOAT (external_decls := openMHA);
     num_entries := 4; data := 2000 |}.

(** [level] as the code first finds it: four floats at 1000. *)
Definition level_found : comm_var_t :=
  {| data_type := MHA_AC_FLOAT (external_decls := openMHA);
     num_entries := 4; data := 1000 |}.

(** [a] with the type id 1, which the bridge does not support. *)
Definition a_retyped : comm_var_t :=
  {| data_type := 1; num_entries := 1; data := 10 |}.

(** The bridge variable of [level]: four floats at 1000. *)
Definition level_var : save_var_base_t :=
  save_var_t elem_float
    (lsl_stream_info "level" "MHA_AC_FLOAT" 4
       (stream_rate (X := openMHA) pipeline 0) cf_float32 EmptyString)
    1000 (MHA_AC_FLOAT (external_decls := openMHA)).

(** The bridge variable of [a]: one float at 10. *)
Definition a_var : save_var_base_t :=
  save_var_t elem_float
    (lsl_stream_info "a" "MHA_AC_FLOAT" 1
       (stream_rate (X := openMHA) pipeline 0) cf_float32 EmptyString)
    10 (MHA_AC_FLOAT (external_decls := openMHA)).

(** The plugin with an empty list of variables, before [prepare]. *)
Definition plugin_for_all : ac2lsl_t (X := openMHA) :=
  set_vars (X := openMHA) (plugin 0 true) [].

(** The configuration for [a] and [b] with the skip interval [k], and four
    cycles over their AC space. *)
Definition ab_cfg_skip (k : Z) : cfg_t :=
  final (new_cfg_t (X := openMHA) ab_ac k EmptyString
           ["a"%string; "b"%string] (stream_rate (X := openMHA) pipeline k)).

Definition ab_cycles : list (algo_comm_t * memory) :=
  repeat (ab_ac, level_mem) 4.

(** * Properties *)

Section Properties.
Context {X : external_decls}.

(** ** Sequencing *)

Lemma and_then_thrown {S} (o : outcome S) (k : S -> outcome S) (e : MHA_Error) :
  thrown o = Some e -> o ;; k = o.
Proof. unfold and_then; intros ->; reflexivity. Qed.

Lemma and_then_calls {S} (o : outcome S) (k : S -> outcome S) :
  thrown o = None -> calls (o ;; k) = calls o ++ calls (k (final o)).
Proof. unfold and_then; intros ->; reflexivity. Qed.

Lemma and_then_final {S} (o : outcome S) (k : S -> outcome S) :
  thrown o = None -> final (o ;; k) = final (k (final o)).
Proof. unfold and_then; intros ->; reflexivity. Qed.

Lemma and_then_thrown_after {S} (o : outcome S) (k : S -> outcome S) :
  thrown o = None -> thrown (o ;; k) = thrown (k (final o)).
Proof. unfold and_then; intros ->; reflexivity. Qed.

(** A property of the state that every step keeps is kept by a sequence. *)
Lemma and_then_keeps {S} (P : S -> Prop) (o : outcome S) (k : S -> outcome S) :
  P (final o) -> (forall s, P s -> P (final (k s))) -> P (final (o ;; k)).
Proof.
  intros Ho Hk; unfold and_then; destruct (thrown o); simpl; auto.
Qed.

(** A property of the calls that every step keeps is kept by a sequence. *)
Lemma and_then_calls_all {S} (P : call -> Prop) (o : outcome S)
    (k : S -> outcome S) :
  Forall P (calls o) -> (forall s, Forall P (calls (k s))) ->
  Forall P (calls (o ;; k)).
Proof.
  intros Ho Hk; unfold and_then; destruct (thrown o); simpl; auto.
  apply Forall_app; auto.
Qed.

(** ** What reconciliation leaves alone *)

Lemma same_settings_refl c : same_settings c c.
Proof. repeat split. Qed.

Lemma same_settings_trans c1 c2 c3 :
  same_settings c1 c2 -> same_settings c2 c3 -> same_settings c1 c3.
Proof. unfold same_settings; intuition congruence. Qed.

Lemma make_or_replace_var_settings name v c :
  same_settings c (final (make_or_replace_var name v c)).
Proof.
  unfold make_or_replace_var; destruct (make_var c name v); repeat split.
Qed.

Lemma update_var_settings ac var c :
  same_settings c (final (update_var ac var c)).
Proof.
  unfold update_var.
  destruct (get_var ac (fst var)) as [v|]; [|repeat split].
  repeat match goal with |- context [if ?b then _ else _] => destruct b end;
    try (repeat split; fail);
    apply and_then_keeps with (P := same_settings c); simpl;
    auto using same_settings_refl;
    intros s Hs; eapply same_settings_trans; eauto using make_or_replace_var_settings.
Qed.

Lemma update_vars_settings ac vars c :
  same_settings c (final (update_vars ac vars c)).
Proof.
  revert c; induction vars as [|var rest IH]; intros c; simpl.
  - apply same_settings_refl.
  - apply and_then_keeps with (P := same_settings c).
    + apply update_var_settings.
    + intros s Hs; eapply same_settings_trans; eauto.
Qed.

Lemma update_varlist_settings ac c :
  same_settings c (final (update_varlist ac c)).
Proof. apply update_vars_settings. Qed.

(** Reconciliation pushes no sample. *)
Lemma make_or_replace_var_no_push name v c :
  Forall (fun x => is_push x = false) (calls (make_or_replace_var name v c)).
Proof.
  unfold make_or_replace_var; destruct (make_var c name v); simpl;
    repeat constructor.
Qed.

Lemma update_var_no_push ac var c :
  Forall (fun x => is_push x = false) (calls (update_var ac var c)).
Proof.
  unfold update_var.
  destruct (get_var ac (fst var)) as [v|]; [|repeat constructor].
  repeat match goal with |- context [if ?b then _ else _] => destruct b end;
    try (repeat constructor; fail);
    apply and_then_calls_all; simpl; intros;
    auto using make_or_replace_var_no_push.
Qed.

Lemma update_vars_no_push ac vars c :
  Forall (fun x => is_push x = false) (calls (update_vars ac vars c)).
Proof.
  revert c; induction vars as [|var rest IH]; intros c; simpl.
  - constructor.
  - apply and_then_calls_all; auto using update_var_no_push.
Qed.

Lemma pushes_none l :
  Forall (fun x => is_push x = false) l -> pushes l = [].
Proof.
  induction 1 as [|x l Hx _ IH]; simpl; [reflexivity|].
  unfold pushes in *; simpl; rewrite Hx; exact IH.
Qed.

Lemma send_frame_frame mem var : send_frame (snd var) mem = [frame mem var].
Proof.
  destruct var as [name [T stream buf dt|stream buf]]; unfold frame; simpl;
    [reflexivity|].
  unfold re_address; rewrite Z.mul_0_r, Z.add_0_r; reflexivity.
Qed.

Lemma send_frames_frames mem l : send_frames mem l = map (frame mem) l.
Proof.
  unfold send_frames; induction l as [|var l IH]; simpl; [reflexivity|].
  rewrite IH, send_frame_frame; reflexivity.
Qed.

Lemma pushes_frames mem l : pushes (map (frame mem) l) = map (frame mem) l.
Proof.
  unfold pushes; induction l as [|var l IH]; simpl; [reflexivity|].
  rewrite IH; reflexivity.
Qed.

Lemma pushes_app l1 l2 : pushes (l1 ++ l2) = pushes l1 ++ pushes l2.
Proof. apply filter_app. Qed.

(** Reconciliation looks up every bridge variable it gets through. *)
Lemma update_var_get_var ac var c :
  In (Get_var (fst var)) (calls (update_var ac var c)).
Proof.
  unfold update_var.
  destruct (get_var ac (fst var)) as [v|]; [|left; reflexivity].
  repeat match goal with |- context [if ?b then _ else _] => destruct b end;
    try (left; reflexivity);
    rewrite and_then_calls by reflexivity; left; reflexivity.
Qed.

Lemma update_vars_get_var ac vars c name :
  thrown (update_vars ac vars c) = None ->
  In name (map fst vars) -> In (Get_var name) (calls (update_vars ac vars c)).
Proof.
  revert c; induction vars as [|var rest IH]; intros c Hok Hin; simpl in *.
  - contradiction.
  - destruct (thrown (update_var ac var c)) as [e|] eqn:Hvar.
    + rewrite (and_then_thrown _ _ e Hvar) in Hok; congruence.
    + rewrite and_then_thrown_after in Hok by assumption.
      rewrite and_then_calls by assumption; apply in_or_app.
      destruct Hin as [<- | Hin]; [left; apply update_var_get_var|].
      right; apply IH; assumption.
Qed.

(** ** The throttle *)

Lemma new_cfg_t_settings ac names c :
  same_settings c (final (resolve_vars ac names c)).
Proof.
  revert c; induction names as [|name rest IH]; intros c; simpl.
  - apply same_settings_refl.
  - destruct (get_var ac name) as [v|]; [|apply same_settings_refl].
    apply and_then_keeps with (P := same_settings c).
    + apply and_then_keeps with (P := same_settings c); simpl.
      * apply same_settings_refl.
      * intros s Hs; eapply same_settings_trans;
          eauto using make_or_replace_var_settings.
    + intros s Hs; eapply same_settings_trans; eauto.
Qed.

Lemma process_throws ac mem c e :
  thrown (update_varlist ac c) = Some e ->
  process ac mem c = update_varlist ac c.
Proof. intros H; unfold process; apply (and_then_thrown _ _ e H). Qed.

Lemma process_sends ac mem c :
  thrown (update_varlist ac c) = None -> skipcnt c = 0 ->
  process ac mem c =
  {| calls := calls (update_varlist ac c) ++
              map (frame mem) (varlist (final (update_varlist ac c)));
     final := set_skipcnt (final (update_varlist ac c)) (skip c);
     thrown := None |}.
Proof.
  intros Hok H0; unfold process, and_then; rewrite Hok.
  destruct (update_varlist_settings ac c) as (Hcnt & Hskip & _).
  rewrite Hcnt, H0, Hskip; simpl; rewrite send_frames_frames; reflexivity.
Qed.

Lemma process_skips ac mem c :
  thrown (update_varlist ac c) = None -> 0 < skipcnt c < 4294967296 ->
  process ac mem c =
  {| calls := calls (update_varlist ac c);
     final := set_skipcnt (final (update_varlist ac c)) (skipcnt c - 1);
     thrown := None |}.
Proof.
  intros Hok H0; unfold process, and_then; rewrite Hok.
  destruct (update_varlist_settings ac c) as (Hcnt & _).
  rewrite Hcnt; destruct (Z.eqb_spec (skipcnt c) 0) as [E|_]; [lia|].
  simpl; rewrite app_nil_r; unfold unsigned_cast.
  rewrite Z.mod_small by lia; reflexivity.
Qed.

Lemma throttle_skip_start ac0 skip_ sid names rate :
  skipcnt (final (new_cfg_t ac0 skip_ sid names rate)) = skip_ /\
  skip (final (new_cfg_t ac0 skip_ sid names rate)) = skip_.
Proof.
  unfold new_cfg_t.
  match goal with |- context [resolve_vars ac0 names ?c0] =>
    destruct (new_cfg_t_settings ac0 names c0) as (H1 & H2 & _) end.
  split; assumption.
Qed.

(** C6.  The skip counter starts at the skip interval; a cycle whose
    counter is zero sends one frame of every bridge variable and resets the
    counter to the interval, any other cycle decrements the counter and
    sends nothing; every cycle first reconciles every bridge variable. *)
Theorem throttle_state_machine (ac : algo_comm_t) (mem : memory) (c : cfg_t)
    (Hrange : 0 <= skipcnt c < 4294967296) :
  (forall ac0 skip_ sid names rate,
      skipcnt (final (new_cfg_t ac0 skip_ sid names rate)) = skip_ /\
      skip (final (new_cfg_t ac0 skip_ sid names rate)) = skip_) /\
  (forall e, thrown (update_varlist ac c) = Some e ->
      process ac mem c = update_varlist ac c) /\
  (thrown (update_varlist ac c) = None ->
      (forall name, In name (map fst (varlist c)) ->
          In (Get_var name) (calls (update_varlist ac c))) /\
      thrown (process ac mem c) = None /\
      varlist (final (process ac mem c)) =
        varlist (final (update_varlist ac c)) /\
      skip (final (process ac mem c)) = skip c /\
      if skipcnt c =? 0 then
        calls (process ac mem c) =
          calls (update_varlist ac c) ++
          map (frame mem) (varlist (final (update_varlist ac c))) /\
        skipcnt (final (process ac mem c)) = skip c
      else
        calls (process ac mem c) = calls (update_varlist ac c) /\
        skipcnt (final (process ac mem c)) = skipcnt c - 1).
Proof.
  split; [|split].
  - apply throttle_skip_start.
  - intros e He; apply (process_throws _ _ _ e He).
  - intros Hok.
    destruct (update_varlist_settings ac c) as (_ & Hskip & _).
    split; [intros name Hin; apply update_vars_get_var; assumption|].
    destruct (Z.eqb_spec (skipcnt c) 0) as [E|E].
    + rewrite process_sends by assumption; simpl; auto.
    + rewrite process_skips by (auto; lia); simpl; auto.
Qed.

Lemma succ_mod (j m : Z) :
  0 < m -> (j + 1) mod m = if j mod m =? m - 1 then 0 else j mod m + 1.
Proof.
  intros Hm.
  pose proof (Z.div_mod j m ltac:(lia)) as Hj.
  pose proof (Z.mod_pos_bound j m Hm) as Hr.
  destruct (Z.eqb_spec (j mod m) (m - 1)) as [E|E].
  - symmetry; apply (Z.mod_unique _ _ (j / m + 1)); lia.
  - symmetry; apply (Z.mod_unique _ _ (j / m)); lia.
Qed.

(** The pushes of cycle [i] of a run that starts [j] cycles into the
    throttle period. *)
Lemma run_pushes (k : Z) (Hk : 0 <= k < 4294967296) inputs :
  forall c j i o aci memi,
    skip c = k -> skipcnt c = k - j mod (k + 1) ->
    nth_error (run inputs c) i = Some o ->
    nth_error inputs i = Some (aci, memi) ->
    thrown o = None ->
    pushes (calls o) =
    if (j + Z.of_nat i + 1) mod (k + 1) =? 0
    then map (frame memi) (varlist (final o)) else [].
Proof.
  induction inputs as [|[ac mem] rest IH]; intros c j i o aci memi Hskip Hcnt Ho Hin Hok.
  - destruct i; discriminate.
  - pose proof (Z.mod_pos_bound j (k + 1) ltac:(lia)) as Hr.
    pose proof (succ_mod j (k + 1) ltac:(lia)) as Hsucc.
    replace (k + 1 - 1) with k in Hsucc by lia.
    simpl in Ho.
    destruct (thrown (update_varlist ac c)) as [e|] eqn:Hrec.
    { rewrite (process_throws _ mem _ e Hrec) in Ho; rewrite Hrec in Ho.
      destruct i as [|i]; simpl in Ho.
      - injection Ho as <-; congruence.
      - destruct i; discriminate. }
    pose proof (update_vars_no_push ac (varlist c) c) as Hnp.
    apply pushes_none in Hnp; fold (update_varlist ac c) in Hnp.
    destruct (Z.eqb_spec (j mod (k + 1)) k) as [E|E].
    + rewrite process_sends in Ho by (auto; lia).
      destruct i as [|i]; simpl in Ho, Hin.
      * injection Ho as <-; injection Hin as <- <-; simpl.
        replace (j + 0 + 1) with (j + 1) by lia; rewrite Hsucc; simpl.
        rewrite pushes_app, Hnp, pushes_frames; reflexivity.
      * replace (j + Z.of_nat (S i) + 1) with ((j + 1) + Z.of_nat i + 1) by lia.
        eapply (IH _ (j + 1)); [ | |exact Ho|exact Hin|exact Hok]; simpl.
        -- destruct (update_varlist_settings ac c) as (_ & H & _); congruence.
        -- rewrite Hsucc; lia.
    + rewrite process_skips in Ho by (auto; lia).
      destruct i as [|i]; simpl in Ho, Hin.
      * injection Ho as <-; simpl.
        replace (j + 0 + 1) with (j + 1) by lia; rewrite Hsucc.
        destruct (Z.eqb_spec (j mod (k + 1) + 1) 0); [lia|assumption].
      * replace (j + Z.of_nat (S i) + 1) with ((j + 1) + Z.of_nat i + 1) by lia.
        eapply (IH _ (j + 1)); [ | |exact Ho|exact Hin|exact Hok]; simpl.
        -- destruct (update_varlist_settings ac c) as (_ & H & _); congruence.
        -- rewrite Hsucc; lia.
Qed.

(** C2, as the code has it.  With skip interval [k], cycle [i] of an epoch
    sends (one frame of every bridge variable) exactly when [i + 1] is a
    multiple of [k + 1], and sends nothing otherwise: the first send is that
    of cycle [k], and cycle 0 sends only when [k = 0]. *)
Theorem throttle_send_cycles (ac0 : algo_comm_t) (k : Z) (sid : string)
    (names : list string) (rate : spec_float)
    (inputs : list (algo_comm_t * memory)) (i : nat) (o : outcome cfg_t)
    (aci : algo_comm_t) (memi : memory)
    (Hk : 0 <= k < 4294967296)
    (Ho : nth_error (run inputs (final (new_cfg_t ac0 k sid names rate))) i
          = Some o)
    (Hin : nth_error inputs i = Some (aci, memi))
    (Hok : thrown o = None) :
  pushes (calls o) =
  if (Z.of_nat i + 1) mod (k + 1) =? 0
  then map (frame memi) (varlist (final o)) else [].
Proof.
  destruct (throttle_skip_start ac0 k sid names rate) as (Hcnt & Hskip).
  rewrite (run_pushes k Hk inputs _ 0 i o aci memi Hskip); auto.
  rewrite Z.mod_0_l by lia; lia.
Qed.

(** ** The map of bridge variables *)

Lemma compare_refl (s : string) : String.compare s s = Eq.
Proof.
  pose proof (String.compare_antisym s s) as H.
  destruct (String.compare s s); simpl in H; congruence.
Qed.

Lemma map_find_assign name a l : map_find name (map_assign name a l) = Some a.
Proof.
  induction l as [|[k b] l IH]; simpl.
  - rewrite String.eqb_refl; reflexivity.
  - destruct (String.compare name k) eqn:E; simpl.
    + rewrite String.eqb_refl; reflexivity.
    + rewrite String.eqb_refl; reflexivity.
    + destruct (String.eqb_spec name k) as [->|_]; [|exact IH].
      rewrite compare_refl in E; discriminate.
Qed.

(** An assignment drops no key. *)
Lemma map_assign_keeps_keys name a l k :
  In k (map fst l) -> In k (map fst (map_assign name a l)).
Proof.
  induction l as [|[k' b] l IH]; simpl; [contradiction|].
  intros Hin; destruct (String.compare name k') eqn:E; simpl.
  - apply String.compare_eq_iff in E; subst k'; assumption.
  - right; assumption.
  - destruct Hin as [->|Hin]; [left; reflexivity|right; auto].
Qed.

(** The entries after an assignment are the new one or old ones. *)
Lemma map_assign_entries name a l var :
  In var (map_assign name a l) -> var = (name, a) \/ In var l.
Proof.
  induction l as [|[k b] l IH]; simpl.
  - intros [<-|[]]; left; reflexivity.
  - destruct (String.compare name k); simpl.
    + intros [<-|H]; auto.
    + intros [<-|[<-|H]]; auto.
    + intros [<-|H]; auto. destruct (IH H); auto.
Qed.

(** ** The factory *)

Lemma unsigned_int32_cast x : unsigned_cast (int32_cast x) = unsigned_cast x.
Proof.
  unfold unsigned_cast, int32_cast.
  rewrite Zminus_mod_idemp_l.
  replace (x + 2147483648 - 2147483648) with x by lia; reflexivity.
Qed.

Lemma int32_cast_small x : 0 <= x < 2147483648 -> int32_cast x = x.
Proof. intros H; unfold int32_cast; rewrite Z.mod_small; lia. Qed.

Lemma unsigned_cast_small x : 0 <= x < 4294967296 -> unsigned_cast x = x.
Proof. intros H; unfold unsigned_cast; rewrite Z.mod_small; lia. Qed.

Lemma unsigned_cast_idem x : unsigned_cast (unsigned_cast x) = unsigned_cast x.
Proof. unfold unsigned_cast; apply Z.mod_mod; lia. Qed.

(** The type ids are pairwise distinct. *)
Lemma complex_is_not_scalar :
  MHA_AC_MHACOMPLEX <> MHA_AC_INT /\ MHA_AC_MHACOMPLEX <> MHA_AC_FLOAT /\
  MHA_AC_MHACOMPLEX <> MHA_AC_DOUBLE /\ MHA_AC_MHACOMPLEX <> MHA_AC_MHAREAL.
Proof.
  pose proof MHA_AC_distinct as H.
  repeat match goal with
         | H : NoDup (_ :: _) |- _ => inversion H; clear H; subst
         end.
  simpl in *; intuition congruence.
Qed.

(** The bridge variable of a supported scalar type. *)
Lemma make_var_scalar c name v :
  In (data_type v) [MHA_AC_INT; MHA_AC_FLOAT; MHA_AC_DOUBLE; MHA_AC_MHAREAL] ->
  exists T type fmt,
    make_var c name v =
    Some (save_var_t T
            (lsl_stream_info name type (num_entries v) (srate c) fmt
               (source_id c))
            (data v) (data_type v)).
Proof.
  intros Hin; unfold make_var.
  repeat match goal with
         | |- context [if ?x =? ?y then _ else _] =>
             destruct (Z.eqb_spec x y); [eauto; fail|]
         end.
  simpl in Hin; intuition congruence.
Qed.

Lemma make_var_complex c name v :
  data_type v = MHA_AC_MHACOMPLEX ->
  make_var c name v =
  Some (save_var_complex_t
          (lsl_stream_info name "MHA_AC_COMPLEX"
             (unsigned_cast (2 * num_entries v)) (srate c) cf_float32
             (source_id c))
          (data v)).
Proof.
  intros E; unfold make_var; rewrite E.
  destruct complex_is_not_scalar as (H1 & H2 & H3 & H4).
  repeat match goal with
         | |- context [if ?x =? ?y then _ else _] =>
             destruct (Z.eqb_spec x y); [congruence|]
         end.
  congruence.
Qed.

Lemma make_var_unknown c name v :
  ~ In (data_type v)
      [MHA_AC_INT; MHA_AC_FLOAT; MHA_AC_DOUBLE; MHA_AC_MHAREAL;
       MHA_AC_MHACOMPLEX] ->
  make_var c name v = None.
Proof.
  intros Hin; unfold make_var.
  repeat match goal with
         | |- context [if ?x =? ?y then _ else _] =>
             destruct (Z.eqb_spec x y);
             [exfalso; apply Hin; simpl; auto 6; fail|]
         end.
  reflexivity.
Qed.

(** C4, as the code has it.  For a supported scalar type the factory builds
    a bridge variable whose channel count is the number of entries [n] when
    [n < 2^31], and for the complex type one whose channel count is [2 n]
    when [n < 2^30]; in any case the count read back as [unsigned] is [n],
    resp. [2 n] modulo [2^32].  For any other type id the factory throws the
    unknown-type error and builds nothing. *)
Theorem factory_channel_count (name : string) (v : comm_var_t) (c : cfg_t)
    (Hn : 0 <= num_entries v < 4294967296) :
  (In (data_type v) [MHA_AC_INT; MHA_AC_FLOAT; MHA_AC_DOUBLE; MHA_AC_MHAREAL] ->
   exists a,
     thrown (make_or_replace_var name v c) = None /\
     map_find name (varlist (final (make_or_replace_var name v c))) = Some a /\
     unsigned_cast (channel_count (info a)) = num_entries v /\
     (num_entries v < 2147483648 -> channel_count (info a) = num_entries v)) /\
  (data_type v = MHA_AC_MHACOMPLEX ->
   exists a,
     thrown (make_or_replace_var name v c) = None /\
     map_find name (varlist (final (make_or_replace_var name v c))) = Some a /\
     unsigned_cast (channel_count (info a)) = (2 * num_entries v) mod 4294967296 /\
     (num_entries v < 1073741824 ->
      channel_count (info a) = 2 * num_entries v)) /\
  (~ In (data_type v)
       [MHA_AC_INT; MHA_AC_FLOAT; MHA_AC_DOUBLE; MHA_AC_MHAREAL;
        MHA_AC_MHACOMPLEX] ->
   thrown (make_or_replace_var name v c) = Some (Unknown_data_type (data_type v)) /\
   final (make_or_replace_var name v c) = c).
Proof.
  unfold make_or_replace_var; split; [|split].
  - intros Hin; destruct (make_var_scalar c name v Hin) as (T & type & fmt & ->).
    eexists; split; [reflexivity|]; split; [apply map_find_assign|].
    cbn [info channel_count lsl_stream_info].
    rewrite unsigned_int32_cast, unsigned_cast_small by assumption.
    split; [reflexivity|]; intros Hsmall; apply int32_cast_small; lia.
  - intros E; rewrite (make_var_complex c name v E).
    eexists; split; [reflexivity|]; split; [apply map_find_assign|].
    cbn [info channel_count lsl_stream_info].
    rewrite unsigned_int32_cast, unsigned_cast_idem.
    split; [reflexivity|]; intros Hsmall.
    rewrite unsigned_cast_small by lia; apply int32_cast_small; lia.
  - intros Hin; rewrite (make_var_unknown c name v Hin); split; reflexivity.
Qed.

(** ** Frames of complex variables *)

Lemma read_sample_complex mem cs :
  forall buf,
    holds_complex mem buf cs ->
    read_sample mem buf (2 * Z.of_nat (List.length cs)) = interleaved cs.
Proof.
  unfold read_sample.
  induction cs as [|z cs IH]; intros buf Hbuf; [reflexivity|].
  replace (Z.to_nat (2 * Z.of_nat (List.length (z :: cs))))
    with (S (S (Z.to_nat (2 * Z.of_nat (List.length cs)))))
    by (cbn [List.length]; lia).
  set (m := Z.to_nat (2 * Z.of_nat (List.length cs))) in *.
  cbn [seq map]; rewrite <- !seq_shift, !map_map.
  destruct (Hbuf 0%nat z eq_refl) as (Hre & Him).
  unfold re_address, im_address in Hre, Him.
  change (Z.of_nat 0) with 0 in *; change (Z.of_nat 1) with 1.
  rewrite Z.mul_0_r, Z.add_0_r in Hre, Him.
  rewrite Z.add_0_r, Hre, Him.
  change (interleaved (z :: cs))
    with (float_val (fst z) :: float_val (snd z) :: interleaved cs).
  do 2 f_equal.
  rewrite <- (IH (buf + 2)).
  - apply map_ext; intros i; f_equal; lia.
  - intros i z' Hi; destruct (Hbuf (S i) z' Hi) as (Hre' & Him').
    unfold re_address, im_address in *.
    replace (buf + 2 + 2 * Z.of_nat i) with (buf + 2 * Z.of_nat (S i)) by lia.
    split; assumption.
Qed.

Lemma interleaved_length cs :
  List.length (interleaved cs) = (2 * List.length cs)%nat.
Proof.
  induction cs as [|z cs IH]; [reflexivity|].
  change (interleaved (z :: cs))
    with (float_val (fst z) :: float_val (snd z) :: interleaved cs).
  cbn [List.length]; rewrite IH; lia.
Qed.

(** C5.  The bridge variable of a complex variable of [n] entries, whose
    stream has [2 n] channels, pushes one sample: the [2 n] reals re(0),
    im(0), re(1), im(1), ... of the complex numbers in its buffer. *)
Theorem send_frame_complex_interleaved (stream : stream_info) (buf : Z)
    (mem : memory) (cs : list (spec_float * spec_float))
    (Hcount : channel_count stream = 2 * Z.of_nat (List.length cs))
    (Hbuf : holds_complex mem buf cs) :
  send_frame (save_var_complex_t stream buf) mem =
    [Push_sample stream (interleaved cs)] /\
  List.length (interleaved cs) = (2 * List.length cs)%nat.
Proof.
  split.
  - simpl; unfold re_address; rewrite Z.mul_0_r, Z.add_0_r, Hcount.
    rewrite (read_sample_complex mem cs buf Hbuf); reflexivity.
  - apply interleaved_length.
Qed.

(** ** The three ways of the loop body of [update_varlist] *)

(** A bridge variable that agrees with its descriptor in address and type
    and has the channel count the last test expects is left alone. *)
Lemma update_var_in_sync ac name a c v :
  get_var ac name = Some v ->
  get_buf_address a = data v ->
  var_data_type a = data_type v ->
  unsigned_cast (channel_count (info a)) = expected_channel_count v ->
  update_var ac (name, a) c = does [Get_var name] c.
Proof.
  intros Hv Hbuf Htype Hcount; unfold update_var; simpl; rewrite Hv.
  rewrite Hbuf, Htype, Hcount, !Z.eqb_refl; reflexivity.
Qed.

(** A fresh bridge variable is in that state. *)
Lemma make_var_in_sync c name v a :
  0 <= num_entries v < 4294967296 ->
  make_var c name v = Some a ->
  get_buf_address a = data v /\ var_data_type a = data_type v /\
  unsigned_cast (channel_count (info a)) = expected_channel_count v.
Proof.
  intros Hn; unfold make_var, expected_channel_count.
  destruct complex_is_not_scalar as (H1 & H2 & H3 & H4).
  repeat match goal with
         | |- context [if ?x =? ?y then _ else _] =>
             destruct (Z.eqb_spec x y)
         end; try congruence; intros [= <-];
    cbn [get_buf_address var_data_type info channel_count lsl_stream_info];
    rewrite unsigned_int32_cast, ?unsigned_cast_idem,
      ?(unsigned_cast_small _ Hn), ?(Z.mul_comm (num_entries v) 2);
    repeat split; congruence.
Qed.

(** A change of the address alone, with the channel count equal to the
    number of entries, repoints the bridge variable and rebuilds nothing:
    this is the case of the scalar types. *)
Lemma update_var_repoints ac name a c v :
  get_var ac name = Some v ->
  get_buf_address a <> data v ->
  var_data_type a = data_type v ->
  unsigned_cast (channel_count (info a)) = num_entries v ->
  update_var ac (name, a) c =
  does [Get_var name; Set_buf_address name (data v)]
    (set_varlist c (map_assign name (set_buf_address a (data v)) (varlist c))).
Proof.
  intros Hv Hbuf Htype Hcount; unfold update_var; simpl; rewrite Hv.
  rewrite Htype, Hcount, !Z.eqb_refl.
  destruct (Z.eqb_spec (get_buf_address a) (data v)); [contradiction|].
  reflexivity.
Qed.

(** The bridge variable of a complex variable of [n] entries has [2 n]
    channels: when only the address of the variable changes, the first test
    compares [2 n] with [n] and fails, the other tests find nothing to
    rebuild, and the bridge variable keeps the old address. *)
Lemma update_var_complex_not_repointed ac name stream buf c v :
  get_var ac name = Some v ->
  data_type v = MHA_AC_MHACOMPLEX ->
  0 < num_entries v < 2147483648 ->
  channel_count stream = 2 * num_entries v ->
  update_var ac (name, save_var_complex_t stream buf) c =
  does [Get_var name] c.
Proof.
  intros Hv Htype Hn Hcount; unfold update_var, expected_channel_count.
  cbn [fst snd get_buf_address info var_data_type]; rewrite Hv, Htype, Hcount.
  rewrite Z.eqb_refl, (Z.mul_comm (num_entries v) 2).
  rewrite unsigned_cast_small by lia; rewrite Z.eqb_refl.
  destruct (Z.eqb_spec (2 * num_entries v) (num_entries v)); [lia|].
  rewrite andb_false_r; reflexivity.
Qed.

(** ** Errors of reconciliation *)

Lemma make_var_none c name v :
  make_var c name v = None ->
  ~ In (data_type v)
      [MHA_AC_INT; MHA_AC_FLOAT; MHA_AC_DOUBLE; MHA_AC_MHAREAL;
       MHA_AC_MHACOMPLEX].
Proof.
  unfold make_var.
  repeat match goal with
         | |- context [if ?x =? ?y then _ else _] =>
             destruct (Z.eqb_spec x y); [discriminate|]
         end.
  intros _; simpl; intuition congruence.
Qed.

Lemma make_or_replace_var_error name v c e :
  thrown (make_or_replace_var name v c) = Some e ->
  e = Unknown_data_type (data_type v) /\ make_var c name v = None.
Proof.
  unfold make_or_replace_var; destruct (make_var c name v); simpl;
    [discriminate|].
  intros [= <-]; split; reflexivity.
Qed.

(** What an exception of the loop body is. *)
Lemma update_var_error ac var c e :
  thrown (update_var ac var c) = Some e ->
  (e = No_such_variable (fst var) /\ get_var ac (fst var) = None) \/
  (exists v, e = Unknown_data_type (data_type v) /\
             get_var ac (fst var) = Some v /\
             ~ In (data_type v)
                 [MHA_AC_INT; MHA_AC_FLOAT; MHA_AC_DOUBLE; MHA_AC_MHAREAL;
                  MHA_AC_MHACOMPLEX]).
Proof.
  unfold update_var.
  destruct (get_var ac (fst var)) as [v|]; simpl;
    [|intros [= <-]; left; split; reflexivity].
  repeat match goal with |- context [if ?b then _ else _] => destruct b end;
    try (simpl; discriminate);
    rewrite and_then_thrown_after by reflexivity; intros He;
    apply make_or_replace_var_error in He; destruct He as (-> & Hnone);
    right; exists v; eauto using make_var_none.
Qed.

Lemma update_var_missing ac var c :
  get_var ac (fst var) = None ->
  thrown (update_var ac var c) = Some (No_such_variable (fst var)).
Proof. intros H; unfold update_var; rewrite H; reflexivity. Qed.

Lemma update_vars_error ac vars c e :
  thrown (update_vars ac vars c) = Some e ->
  (exists n, e = No_such_variable n /\ In n (map fst vars) /\
             get_var ac n = None) \/
  (exists n v, e = Unknown_data_type (data_type v) /\ In n (map fst vars) /\
               get_var ac n = Some v /\
               ~ In (data_type v)
                   [MHA_AC_INT; MHA_AC_FLOAT; MHA_AC_DOUBLE; MHA_AC_MHAREAL;
                    MHA_AC_MHACOMPLEX]).
Proof.
  revert c; induction vars as [|var rest IH]; intros c; simpl;
    [discriminate|].
  destruct (thrown (update_var ac var c)) as [e'|] eqn:Hvar.
  - rewrite (and_then_thrown _ _ e' Hvar), Hvar; intros [= <-].
    destruct (update_var_error _ _ _ _ Hvar) as [(-> & H)|(v & -> & H & H')].
    + left; exists (fst var); auto.
    + right; exists (fst var), v; auto.
  - rewrite and_then_thrown_after by assumption; intros He.
    destruct (IH _ He) as [(n & H1 & H2 & H3)|(n & v & H1 & H2 & H3)].
    + left; exists n; auto.
    + right; exists n, v; auto.
Qed.

Lemma update_vars_missing ac vars c name :
  In name (map fst vars) -> get_var ac name = None ->
  thrown (update_vars ac vars c) <> None.
Proof.
  revert c; induction vars as [|var rest IH]; intros c Hin Habs; simpl in *;
    [contradiction|].
  destruct (thrown (update_var ac var c)) as [e'|] eqn:Hvar.
  - rewrite (and_then_thrown _ _ e' Hvar), Hvar; discriminate.
  - rewrite and_then_thrown_after by assumption.
    destruct Hin as [<-|Hin]; [|auto].
    rewrite update_var_missing in Hvar by assumption; discriminate.
Qed.

Lemma make_or_replace_var_keeps_key k name v c :
  keeps_key k c (final (make_or_replace_var name v c)).
Proof.
  unfold keeps_key, make_or_replace_var; destruct (make_var c name v); simpl;
    auto using map_assign_keeps_keys.
Qed.

Lemma update_var_keeps_key k ac var c :
  keeps_key k c (final (update_var ac var c)).
Proof.
  unfold update_var.
  destruct (get_var ac (fst var)) as [v|]; [|intros H; exact H].
  repeat match goal with |- context [if ?b then _ else _] => destruct b end;
    try (intros H; simpl; auto using map_assign_keeps_keys; fail);
    rewrite and_then_final by reflexivity; simpl;
    apply make_or_replace_var_keeps_key.
Qed.

Lemma update_vars_keeps_key k ac vars c :
  keeps_key k c (final (update_vars ac vars c)).
Proof.
  revert c; induction vars as [|var rest IH]; intros c; simpl.
  - intros H; exact H.
  - apply and_then_keeps with (P := keeps_key k c).
    + apply update_var_keeps_key.
    + intros s Hs Hin; apply IH, Hs, Hin.
Qed.

(** C8, as the code has it.  When a monitored variable is absent from the
    AC space, reconciliation throws and [process] passes the exception on:
    the missing-variable error of an absent monitored name, unless the
    rebuild of a bridge variable failed before with the unknown-type error
    (which cannot be when every monitored variable that is present has a
    supported type).  The variable stays in the map. *)
Theorem missing_variable_is_fatal (ac : algo_comm_t) (mem : memory)
    (c : cfg_t) (name : string)
    (Hin : In name (map fst (varlist c)))
    (Habs : get_var ac name = None) :
  (exists e,
      thrown (update_varlist ac c) = Some e /\
      thrown (process ac mem c) = Some e /\
      pushes (calls (process ac mem c)) = [] /\
      ((exists n, e = No_such_variable n /\ In n (map fst (varlist c)) /\
                  get_var ac n = None) \/
       (exists n v, e = Unknown_data_type (data_type v) /\
                    In n (map fst (varlist c)) /\ get_var ac n = Some v /\
                    ~ In (data_type v)
                        [MHA_AC_INT; MHA_AC_FLOAT; MHA_AC_DOUBLE;
                         MHA_AC_MHAREAL; MHA_AC_MHACOMPLEX]))) /\
  ((forall n v, In n (map fst (varlist c)) -> get_var ac n = Some v ->
                In (data_type v)
                  [MHA_AC_INT; MHA_AC_FLOAT; MHA_AC_DOUBLE; MHA_AC_MHAREAL;
                   MHA_AC_MHACOMPLEX]) ->
   exists n, thrown (process ac mem c) = Some (No_such_variable n) /\
             In n (map fst (varlist c)) /\ get_var ac n = None) /\
  In name (map fst (varlist (final (process ac mem c)))).
Proof.
  pose proof (update_vars_missing ac (varlist c) c name Hin Habs) as Hthrown.
  fold (update_varlist ac c) in Hthrown.
  destruct (thrown (update_varlist ac c)) as [e|] eqn:He; [|congruence].
  clear Hthrown; rewrite (process_throws ac mem c e He), He.
  pose proof (update_vars_error ac (varlist c) c e He) as Hkind.
  split; [|split].
  - exists e; repeat split; auto.
    apply pushes_none, update_vars_no_push.
  - intros Hsup; destruct Hkind as [(n & -> & H1 & H2)|(n & v & _ & H1 & H2 & H3)].
    + exists n; auto.
    + exfalso; apply H3; eauto.
  - apply update_vars_keeps_key; assumption.
Qed.

(** ** The rate declared by the streams *)

Lemma make_var_rate c name v a :
  make_var c name v = Some a -> nominal_srate (info a) = srate c.
Proof.
  unfold make_var.
  repeat match goal with
         | |- context [if ?b then _ else _] => destruct b
         end; intros [= <-]; reflexivity.
Qed.

Lemma set_buf_address_info a p : info (set_buf_address a p) = info a.
Proof. destruct a; reflexivity. Qed.

Lemma make_or_replace_var_declares r name v c :
  declares r c -> declares r (final (make_or_replace_var name v c)).
Proof.
  intros (Hr & Hall); unfold make_or_replace_var.
  destruct (make_var c name v) as [a|] eqn:Ha; simpl; [|split; assumption].
  split; [assumption|]; simpl; intros var Hvar.
  destruct (map_assign_entries _ _ _ _ Hvar) as [->|Hold]; auto.
  simpl; rewrite (make_var_rate _ _ _ _ Ha); assumption.
Qed.

Lemma update_var_declares r ac var c :
  nominal_srate (info (snd var)) = r -> declares r c ->
  declares r (final (update_var ac var c)).
Proof.
  intros Hvar (Hr & Hall); unfold update_var.
  destruct (get_var ac (fst var)) as [v|]; [|split; assumption].
  repeat match goal with |- context [if ?b then _ else _] => destruct b end;
    try (split; assumption);
    try (rewrite and_then_final by reflexivity;
         apply make_or_replace_var_declares; split; assumption).
  split; [assumption|]; simpl; intros var' Hvar'.
  destruct (map_assign_entries _ _ _ _ Hvar') as [->|Hold]; auto.
  simpl; rewrite set_buf_address_info; assumption.
Qed.

Lemma update_vars_declares r ac vars c :
  (forall var, In var vars -> nominal_srate (info (snd var)) = r) ->
  declares r c -> declares r (final (update_vars ac vars c)).
Proof.
  revert c; induction vars as [|var rest IH]; intros c Hvars Hc; simpl;
    [assumption|].
  apply and_then_keeps with (P := declares r).
  - apply update_var_declares; [apply Hvars; left; reflexivity|assumption].
  - intros s Hs; apply IH; [intros; apply Hvars; right|]; assumption.
Qed.

Lemma process_declares r ac mem c :
  declares r c -> declares r (final (process ac mem c)).
Proof.
  intros Hc; unfold process.
  apply and_then_keeps with (P := declares r).
  - apply update_vars_declares; [apply Hc|assumption].
  - intros s Hs; destruct (skipcnt s =? 0); exact Hs.
Qed.

Lemma epoch_declares r c0 c : declares r c0 -> epoch c0 c -> declares r c.
Proof.
  intros H0; induction 1; [assumption|apply process_declares; assumption].
Qed.

Lemma resolve_vars_declares r ac names c :
  declares r c -> declares r (final (resolve_vars ac names c)).
Proof.
  revert c; induction names as [|name rest IH]; intros c Hc; simpl;
    [assumption|].
  destruct (get_var ac name) as [v|]; [|assumption].
  apply and_then_keeps with (P := declares r); [|auto].
  rewrite and_then_final by reflexivity.
  apply make_or_replace_var_declares; assumption.
Qed.

(** The constructor builds each bridge variable of the new configuration by
    a call of [make_or_replace_var], one for each name. *)
Lemma make_or_replace_var_built name v c var :
  In var (varlist (final (make_or_replace_var name v c))) ->
  fst var = name \/ In var (varlist c).
Proof.
  unfold make_or_replace_var; destruct (make_var c name v); simpl; auto.
  intros H; destruct (map_assign_entries _ _ _ _ H) as [->|H']; auto.
Qed.

Lemma make_or_replace_var_called name v c :
  In (Make_or_replace_var name v)
     (calls (does [Get_var name] c ;; make_or_replace_var name v)).
Proof.
  rewrite and_then_calls by reflexivity; simpl.
  unfold make_or_replace_var; destruct (make_var c name v); simpl; auto.
Qed.

Lemma resolve_vars_built ac names c var :
  In var (varlist (final (resolve_vars ac names c))) ->
  In var (varlist c) \/
  exists v,
    In (Make_or_replace_var (fst var) v) (calls (resolve_vars ac names c)).
Proof.
  revert c; induction names as [|name rest IH]; intros c; simpl; auto.
  destruct (get_var ac name) as [v|]; simpl; auto.
  pose proof (make_or_replace_var_called name v c) as Hcall.
  set (o := does [Get_var name] c ;; make_or_replace_var name v) in *.
  assert (Hfinal : final o = final (make_or_replace_var name v c))
    by (unfold o; apply and_then_final; reflexivity).
  destruct (thrown o) as [e|] eqn:Ho.
  - rewrite (and_then_thrown _ _ e Ho), Hfinal; intros H.
    destruct (make_or_replace_var_built _ _ _ _ H) as [<-|H']; eauto.
  - rewrite and_then_final, and_then_calls by assumption; intros H.
    destruct (IH _ H) as [H'|(v' & H')].
    + rewrite Hfinal in H'.
      destruct (make_or_replace_var_built _ _ _ _ H') as [<-|H'']; auto.
      right; exists v; apply in_or_app; auto.
    + right; exists v'; apply in_or_app; auto.
Qed.

Lemma map_assign_has_key name a l : In name (map fst (map_assign name a l)).
Proof.
  induction l as [|[k b] l IH]; simpl; auto.
  destruct (String.compare name k); simpl; auto.
Qed.

Lemma resolve_vars_keeps_key k ac names c :
  keeps_key k c (final (resolve_vars ac names c)).
Proof.
  revert c; induction names as [|name rest IH]; intros c; simpl.
  - intros H; exact H.
  - destruct (get_var ac name) as [v|]; [|intros H; exact H].
    apply and_then_keeps with (P := keeps_key k c).
    + rewrite and_then_final by reflexivity.
      apply make_or_replace_var_keeps_key.
    + intros s Hs Hin; apply IH, Hs, Hin.
Qed.

(** A constructor that returns has built a bridge variable for each name. *)
Lemma resolve_vars_all ac names c name :
  thrown (resolve_vars ac names c) = None -> In name names ->
  In name (map fst (varlist (final (resolve_vars ac names c)))).
Proof.
  revert c; induction names as [|n rest IH]; intros c Hok Hin; simpl in *;
    [contradiction|].
  destruct (get_var ac n) as [v|] eqn:Hv; [|discriminate].
  set (o := does [Get_var n] c ;; make_or_replace_var n v) in *.
  assert (Hfinal : final o = final (make_or_replace_var n v c))
    by (unfold o; apply and_then_final; reflexivity).
  assert (Hthrown : thrown o = thrown (make_or_replace_var n v c))
    by (unfold o; apply and_then_thrown_after; reflexivity).
  destruct (thrown o) as [e|] eqn:Ho.
  { rewrite (and_then_thrown _ _ e Ho) in Hok; congruence. }
  rewrite and_then_thrown_after in Hok by assumption.
  rewrite and_then_final by assumption.
  destruct Hin as [->|Hin]; [|auto].
  apply resolve_vars_keeps_key; rewrite Hfinal.
  revert Hthrown; unfold make_or_replace_var.
  destruct (make_var c name v); simpl; [|discriminate].
  intros _; apply map_assign_has_key.
Qed.

(** C10, as the code has it.  The configuration that [update] publishes,
    and every configuration of its epoch, holds only streams that declare
    the rate [srate / fragsize / (skip + 1.0f)], also those rebuilt by a
    later reconciliation; [update] builds a bridge variable for each
    monitored name and every stream of the new configuration by a call of
    [make_or_replace_var], so that a change of [skip] rebuilds every stream
    with the rate computed from the new value. *)
Theorem declared_rate_of_epoch (ac : algo_comm_t) (p : ac2lsl_t)
    (Hprepared : is_prepared p = true)
    (Hok : thrown (update ac p) = None) :
  exists c0,
    pushed (final (update ac p)) = Some c0 /\
    skip c0 = unsigned_cast (par_skip p) /\
    (forall name, In name (vars p) -> In name (map fst (varlist c0))) /\
    (forall var, In var (varlist c0) ->
       exists v, In (Make_or_replace_var (fst var) v) (calls (update ac p))) /\
    (forall c var, epoch c0 c -> In var (varlist c) ->
       nominal_srate (info (snd var)) =
       real_div_float
         (real_div_unsigned (cf_srate (input_cfg p)) (cf_fragsize (input_cfg p)))
         (float_add (float_of_Z (par_skip p)) (float_of_Z 1))).
Proof.
  revert Hok; unfold update; rewrite Hprepared.
  set (o := new_cfg_t ac _ _ _ _).
  destruct (thrown o) as [e|] eqn:Ho; [discriminate|]; intros _; simpl.
  exists (final o); split; [reflexivity|].
  split; [apply throttle_skip_start|].
  split; [intros name Hname; apply resolve_vars_all; assumption|].
  split.
  - intros var Hvar; unfold o, new_cfg_t in Hvar.
    destruct (resolve_vars_built _ _ _ _ Hvar) as [[]|H]; exact H.
  - intros c var Hc Hvar.
    assert (H0 : declares (stream_rate (input_cfg p) (par_skip p)) (final o)).
    { apply resolve_vars_declares; split; [reflexivity|intros ? []]. }
    destruct (epoch_declares _ _ _ H0 Hc) as (_ & Hall).
    apply (Hall var Hvar).
Qed.

(** ** The plugin entry point *)

Lemma rt_check_calls sched p : calls (rt_check sched p) = [].
Proof.
  unfold rt_check.
  repeat match goal with |- context [if ?b then _ else _] => destruct b end;
    reflexivity.
Qed.

Lemma rt_check_cfg sched p :
  cfg (final (rt_check sched p)) = cfg p /\
  pushed (final (rt_check sched p)) = pushed p /\
  activate (final (rt_check sched p)) = activate p.
Proof.
  unfold rt_check.
  repeat match goal with |- context [if ?b then _ else _] => destruct b end;
    repeat split.
Qed.

Lemma rt_check_thrown sched p :
  thrown (rt_check sched p) =
  if is_first_run p && rt_strict p then
    if negb (fst sched =? 0) then Some Sched_params_unavailable
    else if (snd sched =? SCHED_FIFO) || (snd sched =? SCHED_RR)
         then Some Realtime_thread else None
  else None.
Proof.
  unfold rt_check.
  destruct (is_first_run p), (rt_strict p); simpl; try reflexivity.
  repeat match goal with |- context [if ?b then _ else _] => destruct b end;
    reflexivity.
Qed.

Lemma poll_config_calls p : calls (poll_config p) = [].
Proof. unfold poll_config; destruct (pushed p), (cfg p); reflexivity. Qed.

Lemma poll_config_activate p : activate (final (poll_config p)) = activate p.
Proof. unfold poll_config; destruct (pushed p), (cfg p); reflexivity. Qed.

(** C3, as the code has it.  With [activate] off, [process] is the check
    of the first run followed by the poll of the configuration: it calls
    neither the reconciliation nor [send_frame] and leaves the runtime
    configuration it polled as it is, but it throws when the check of the
    first run fails ([rt_strict] on and the scheduling parameters
    unavailable or the policy real-time), and otherwise only when there is
    no runtime configuration to poll. *)
Theorem inactive_process (sched : Z * Z) (ac : algo_comm_t) (mem : memory)
    (p : ac2lsl_t) (Hoff : activate p = false) :
  ac2lsl_t_process sched ac mem p = rt_check sched p ;; poll_config /\
  calls (ac2lsl_t_process sched ac mem p) = [] /\
  (cfg (final (ac2lsl_t_process sched ac mem p)) = cfg p \/
   cfg (final (ac2lsl_t_process sched ac mem p)) = pushed p) /\
  thrown (ac2lsl_t_process sched ac mem p) =
    if is_first_run p && rt_strict p && negb (fst sched =? 0)
    then Some Sched_params_unavailable
    else if is_first_run p && rt_strict p &&
            ((snd sched =? SCHED_FIFO) || (snd sched =? SCHED_RR))
    then Some Realtime_thread
    else match pushed p, cfg p with
         | None, None => Some No_runtime_config
         | _, _ => None
         end.
Proof.
  assert (Heq : ac2lsl_t_process sched ac mem p = rt_check sched p ;; poll_config).
  { unfold ac2lsl_t_process.
    set (o := rt_check sched p ;; poll_config).
    assert (Hact : activate (final o) = false).
    { unfold o, and_then; destruct (rt_check_cfg sched p) as (_ & _ & Ha).
      destruct (thrown (rt_check sched p)); simpl;
        rewrite ?poll_config_activate; congruence. }
    unfold and_then at 1; destruct (thrown o) eqn:Ho; [reflexivity|].
    rewrite Hact; simpl; rewrite app_nil_r.
    destruct o; simpl in *; subst; reflexivity. }
  rewrite Heq; split; [reflexivity|].
  pose proof (rt_check_thrown sched p) as Hrt.
  destruct (rt_check_cfg sched p) as (Hcfg & Hpushed & _).
  pose proof (rt_check_calls sched p) as Hcalls.
  unfold and_then; destruct (thrown (rt_check sched p)) as [e|] eqn:Hthrown.
  - rewrite Hcalls, Hcfg; split; [reflexivity|]; split; [auto|].
    rewrite Hthrown, Hrt.
    destruct (is_first_run p && rt_strict p); [|discriminate]; simpl.
    destruct (negb (fst sched =? 0)); [reflexivity|].
    destruct ((snd sched =? SCHED_FIFO) || (snd sched =? SCHED_RR));
      [reflexivity|discriminate].
  - simpl; rewrite Hcalls, poll_config_calls; split; [reflexivity|].
    unfold poll_config; rewrite Hpushed, Hcfg.
    assert (Hgate :
      (if is_first_run p && rt_strict p && negb (fst sched =? 0)
       then Some Sched_params_unavailable
       else if is_first_run p && rt_strict p &&
               ((snd sched =? SCHED_FIFO) || (snd sched =? SCHED_RR))
       then Some Realtime_thread
       else match pushed p, cfg p with
            | None, None => Some No_runtime_config
            | _, _ => None
            end) =
      match pushed p, cfg p with
      | None, None => Some No_runtime_config
      | _, _ => None
      end).
    { destruct (is_first_run p && rt_strict p); [|reflexivity]; simpl.
      destruct (negb (fst sched =? 0)); [discriminate|].
      destruct ((snd sched =? SCHED_FIFO) || (snd sched =? SCHED_RR));
        [discriminate|reflexivity]. }
    rewrite Hgate.
    destruct (pushed p) as [c|] eqn:Hp; simpl.
    + split; [right; reflexivity|reflexivity].
    + destruct (cfg p) eqn:Hc; simpl; rewrite ?Hcfg, ?Hc; auto.
Qed.

(** ** Enumeration of the AC space *)

Lemma get_entries_loop_spec (ac : algo_comm_t) :
  forall (fuel j : nat),
    (j <= 11)%nat -> (12 <= fuel + j)%nat ->
    exists lens r,
      get_entries_loop fuel ac (512 * 2 ^ Z.of_nat j) = Some (lens, r) /\
      (forall i len, nth_error lens i = Some len ->
                     len = 1024 * 2 ^ Z.of_nat (j + i)) /\
      (List.length lens + j <= 11)%nat /\
      (r = Throws AC_list_too_long -> (List.length lens + j = 11)%nat) /\
      (forall need, needs_buffer ac need ->
         j = 0%nat \/ 512 * 2 ^ Z.of_nat j < need ->
         (need <= 1048576 ->
          exists len, In len lens /\ need <= len /\
                      r = Returns (get_entries ac len)) /\
         (1048576 < need -> r = Throws AC_list_too_long)).
Proof.
  induction fuel as [|fuel IH]; intros j Hj Hfuel; [lia|].
  cbn [get_entries_loop].
  assert (Hlen : unsigned_cast (Z.shiftl (512 * 2 ^ Z.of_nat j) 1)
                 = 1024 * 2 ^ Z.of_nat j).
  { rewrite Z.shiftl_mul_pow2 by lia.
    assert (2 ^ Z.of_nat j <= 2 ^ 11) by (apply Z.pow_le_mono_r; lia).
    unfold unsigned_cast; rewrite Z.mod_small; lia. }
  rewrite Hlen.
  assert (Hnext : 1024 * 2 ^ Z.of_nat j = 512 * 2 ^ Z.of_nat (S j)).
  { rewrite Nat2Z.inj_succ, Z.pow_succ_r; lia. }
  destruct (Z.ltb_spec 1048576 (1024 * 2 ^ Z.of_nat j)) as [Hbig|Hsmall].
  - exists [], (Throws AC_list_too_long); split; [reflexivity|].
    split; [intros [|i] len; discriminate|].
    assert (j = 11%nat).
    { destruct (Nat.eq_dec j 11) as [E|E]; [assumption|exfalso].
      assert (2 ^ Z.of_nat j <= 2 ^ 10) by (apply Z.pow_le_mono_r; lia).
      lia. }
    subst j; split; [simpl; lia|]; split; [reflexivity|].
    intros need Hneed Hprev; split; [|reflexivity].
    change (2 ^ Z.of_nat 11) with 2048 in Hprev; lia.
  - assert (Hj' : (j <= 10)%nat).
    { destruct (Nat.eq_dec j 11) as [->|E]; [|lia].
      change (2 ^ Z.of_nat 11) with 2048 in Hsmall; lia. }
    destruct (Z.eqb_spec (fst (get_entries ac (1024 * 2 ^ Z.of_nat j))) (-3))
      as [Hshort|Hdone].
    + rewrite Hnext.
      destruct (IH (S j) ltac:(lia) ltac:(lia))
        as (lens & r & -> & Hlens & Hcount & Hall & Hcontract).
      exists (512 * 2 ^ Z.of_nat (S j) :: lens), r; split; [reflexivity|].
      split; [|split; [|split]].
      * intros [|i] len; cbn [nth_error].
        -- intros [= <-]; rewrite Nat.add_0_r; symmetry; exact Hnext.
        -- intros Hi; rewrite (Hlens i len Hi); do 3 f_equal; lia.
      * cbn [List.length]; lia.
      * intros Hr; specialize (Hall Hr); cbn [List.length]; lia.
      * intros need Hneed _.
        assert (Hprev : 512 * 2 ^ Z.of_nat (S j) < need).
        { destruct (Hneed (512 * 2 ^ Z.of_nat (S j))) as (_ & Hfit).
          destruct (Z.lt_ge_cases (512 * 2 ^ Z.of_nat (S j)) need);
            [assumption|].
          rewrite <- Hnext, Hshort in Hfit; specialize (Hfit ltac:(lia)).
          discriminate. }
        destruct (Hcontract need Hneed (or_intror Hprev)) as (Hfit & Hover).
        split; [|assumption].
        intros Hle; destruct (Hfit Hle) as (len & Hin & Hge & ->).
        exists len; split; [right; assumption|auto].
    + exists [1024 * 2 ^ Z.of_nat j],
        (Returns (get_entries ac (1024 * 2 ^ Z.of_nat j))).
      split; [reflexivity|]; split; [|split; [|split]].
      * intros [|[|i]] len; cbn [nth_error]; try discriminate.
        intros [= <-]; rewrite Nat.add_0_r; reflexivity.
      * cbn [List.length]; lia.
      * discriminate.
      * intros need Hneed _.
        destruct (Hneed (1024 * 2 ^ Z.of_nat j)) as (Hshort & Hfit).
        assert (Hge : need <= 1024 * 2 ^ Z.of_nat j).
        { destruct (Z.le_gt_cases need (1024 * 2 ^ Z.of_nat j)); [assumption|].
          exfalso; apply Hdone, Hshort; lia. }
        split; [intros _; eexists; split; [left; reflexivity|auto]|].
        intros Hover; lia.
Qed.

(** The loop asks again exactly when [get_entries] returned -3: every call
    but the last returned -3, and the loop ends with the answer of the
    first call that did not, or with the exception after calls that all
    returned -3. *)
Lemma get_entries_loop_calls (ac : algo_comm_t) :
  forall (fuel : nat) (cstr_len : Z) (lens : list Z) (r : result (Z * string)),
    get_entries_loop fuel ac cstr_len = Some (lens, r) ->
    match r with
    | Throws e =>
        e = AC_list_too_long /\
        forall len, In len lens -> fst (get_entries ac len) = -3
    | Returns x =>
        exists front len,
          lens = front ++ [len] /\
          (forall l, In l front -> fst (get_entries ac l) = -3) /\
          fst (get_entries ac len) <> -3 /\
          x = get_entries ac len
    end.
Proof.
  induction fuel as [|fuel IH]; intros cstr_len lens r; [discriminate|].
  cbn [get_entries_loop].
  remember (unsigned_cast (Z.shiftl cstr_len 1)) as d eqn:Hd.
  destruct (1048576 <? d).
  - intros [= <- <-]; split; [reflexivity|intros len []].
  - destruct (Z.eqb_spec (fst (get_entries ac d)) (-3)) as [Hshort|Hdone].
    + destruct (get_entries_loop fuel ac d) as [[lens' r']|] eqn:Hloop;
        [|discriminate].
      intros [= <- <-]; specialize (IH d lens' r' Hloop).
      destruct r' as [x|e].
      * destruct IH as (front & len & -> & Hfront & Hlast & ->).
        exists (d :: front), len; split; [reflexivity|].
        split; [|auto].
        intros l [<-|Hl]; [exact Hshort|exact (Hfront l Hl)].
      * destruct IH as (-> & Hall); split; [reflexivity|].
        intros len [<-|Hlen]; [exact Hshort|exact (Hall len Hlen)].
    + intros [= <- <-]; exists [], d; split; [reflexivity|].
      split; [intros l []|auto].
Qed.

(** C9.  The enumeration ends after at most eleven calls of [get_entries],
    with buffers of 1024, 2048, ... characters, each twice the one before
    and none longer than 1 MiB.  It asks again exactly when [get_entries]
    returned -3: either all eleven buffers were too short and it throws the
    overflow error, or every call but the last returned -3 and the result
    is that of the last call, the first that did not return -3 (the
    invalid-handle error for the code -1, the tokens of its buffer
    otherwise).  For an AC space whose list needs a buffer of at most
    1 MiB the last buffer is the first of the sequence that is long enough,
    and the tokens of the list are returned; for one that needs more the
    overflow error is thrown after the buffer of 1 MiB was tried. *)
Theorem enumeration_terminates (ac : algo_comm_t) (fuel : nat)
    (Hfuel : (12 <= fuel)%nat) :
  exists lens r,
    get_all_names_from_ac_space fuel ac = Some (lens, r) /\
    doubling lens /\
    (List.length lens <= 11)%nat /\
    ((r = Throws AC_list_too_long /\
      List.length lens = 11%nat /\
      forall len, In len lens -> fst (get_entries ac len) = -3) \/
     (exists front len,
        lens = front ++ [len] /\
        (forall l, In l front -> fst (get_entries ac l) = -3) /\
        fst (get_entries ac len) <> -3 /\
        r = if fst (get_entries ac len) =? -1
            then Throws AC_handle_invalid
            else Returns
                   (str2val ("[" ++ snd (get_entries ac len) ++ "]")%string))) /\
    (forall need, needs_buffer ac need ->
       (need <= 1048576 ->
        exists front len,
          lens = front ++ [len] /\
          (forall l, In l front -> l < need) /\
          need <= len /\
          r = Returns (str2val ("[" ++ snd (get_entries ac len) ++ "]")%string)) /\
       (1048576 < need ->
        r = Throws AC_list_too_long /\ List.length lens = 11%nat)).
Proof.
  destruct (get_entries_loop_spec ac fuel 0 ltac:(lia) ltac:(lia))
    as (lens & r & Hloop & Hlens & Hcount & Hall & Hcontract).
  change (512 * 2 ^ Z.of_nat 0) with 512 in Hloop.
  pose proof (get_entries_loop_calls ac fuel 512 lens r Hloop) as Hcalls.
  unfold get_all_names_from_ac_space; rewrite Hloop.
  destruct r as [x|e].
  - destruct Hcalls as (front & len & -> & Hfront & Hlast & ->).
    exists (front ++ [len]),
      (if fst (get_entries ac len) =? -1
       then Throws AC_handle_invalid
       else Returns (str2val ("[" ++ snd (get_entries ac len) ++ "]")%string)).
    split; [destruct (fst (get_entries ac len) =? -1); reflexivity|].
    split; [exact Hlens|]; split; [lia|].
    split; [right; exists front, len; auto|].
    intros need Hneed.
    destruct (Hcontract need Hneed (or_introl eq_refl)) as (Hfit & Hover).
    split; [|intros Hgt; specialize (Hover Hgt); discriminate].
    intros _; exists front, len; split; [reflexivity|].
    assert (Hge : need <= len).
    { destruct (Z.le_gt_cases need len) as [H|H]; [exact H|].
      exfalso; apply Hlast, (proj1 (Hneed len)); lia. }
    split; [|split; [exact Hge|]].
    + intros l Hl; destruct (Z.lt_ge_cases l need) as [H|H]; [exact H|].
      pose proof (proj2 (Hneed l) ltac:(lia)) as H0.
      rewrite (Hfront l Hl) in H0; discriminate.
    + rewrite (proj2 (Hneed len) Hge); reflexivity.
  - destruct Hcalls as (-> & Hshort).
    specialize (Hall eq_refl); rewrite Nat.add_0_r in Hall.
    exists lens, (Throws AC_list_too_long); split; [reflexivity|].
    split; [exact Hlens|]; split; [lia|].
    split; [left; auto|].
    intros need Hneed.
    destruct (Hcontract need Hneed (or_introl eq_refl)) as (Hfit & _).
    split; [|auto].
    intros Hle; destruct (Hfit Hle) as (len & _ & _ & [=]).
Qed.

(** ** The order of the keys *)

Lemma ascii_compare_refl (a : ascii) : Ascii.compare a a = Eq.
Proof. unfold Ascii.compare; apply N.compare_refl. Qed.

Lemma ascii_compare_lt_trans (a b c : ascii) :
  Ascii.compare a b = Lt -> Ascii.compare b c = Lt -> Ascii.compare a c = Lt.
Proof.
  unfold Ascii.compare; rewrite !N.compare_lt_iff; apply N.lt_trans.
Qed.

Lemma compare_lt_trans (s1 s2 s3 : string) :
  String.compare s1 s2 = Lt -> String.compare s2 s3 = Lt ->
  String.compare s1 s3 = Lt.
Proof.
  revert s2 s3; induction s1 as [|a s1 IH]; intros [|b s2] [|c s3]; simpl;
    try discriminate; auto.
  destruct (Ascii.compare a b) eqn:Hab; try discriminate;
    destruct (Ascii.compare b c) eqn:Hbc; try discriminate.
  - apply Ascii.compare_eq_iff in Hab, Hbc; subst.
    rewrite ascii_compare_refl; apply IH.
  - apply Ascii.compare_eq_iff in Hab; subst; rewrite Hbc; reflexivity.
  - apply Ascii.compare_eq_iff in Hbc; subst; rewrite Hab; reflexivity.
  - rewrite (ascii_compare_lt_trans _ _ _ Hab Hbc); reflexivity.
Qed.

Lemma compare_gt_lt (s1 s2 : string) :
  String.compare s1 s2 = Gt -> String.compare s2 s1 = Lt.
Proof.
  rewrite String.compare_antisym; destruct (String.compare s2 s1);
    simpl; congruence.
Qed.

(** ** The map stays a map *)

Lemma map_assign_sorted name a l : sorted l -> sorted (map_assign name a l).
Proof.
  unfold sorted; induction 1 as [|[k b] l Hl IH Hk]; simpl.
  - repeat constructor.
  - destruct (String.compare name k) eqn:E.
    + apply String.compare_eq_iff in E; subst k.
      constructor; [assumption|exact Hk].
    + constructor; [constructor; assumption|].
      constructor; [exact E|].
      revert Hk; apply Forall_impl; intros y Hy.
      exact (compare_lt_trans _ _ _ E Hy).
    + constructor; [assumption|].
      apply Forall_forall; intros y Hy.
      destruct (map_assign_entries _ _ _ _ Hy) as [->|Hold].
      * exact (compare_gt_lt _ _ E).
      * exact (proj1 (Forall_forall _ _) Hk y Hold).
Qed.

(** An assignment to a key of the map replaces the value in place. *)
Lemma map_assign_same_keys name a l :
  sorted l -> In name (map fst l) ->
  map fst (map_assign name a l) = map fst l.
Proof.
  unfold sorted; induction 1 as [|[k b] l Hl IH Hk]; simpl; [contradiction|].
  intros Hin; destruct (String.compare name k) eqn:E; simpl.
  - apply String.compare_eq_iff in E; subst k; reflexivity.
  - exfalso; destruct Hin as [->|Hin].
    + rewrite compare_refl in E; discriminate.
    + apply in_map_iff in Hin; destruct Hin as (y & <- & Hy).
      pose proof (proj1 (Forall_forall _ _) Hk y Hy) as Hlt.
      unfold key_lt in Hlt; simpl in Hlt.
      rewrite String.compare_antisym, Hlt in E; discriminate.
  - destruct Hin as [->|Hin]; [rewrite compare_refl in E; discriminate|].
    rewrite IH by assumption; reflexivity.
Qed.

Lemma make_or_replace_var_same_map keys name v c :
  In name keys -> same_map keys c ->
  same_map keys (final (make_or_replace_var name v c)).
Proof.
  intros Hin (Hs & Hk); unfold make_or_replace_var.
  destruct (make_var c name v); simpl; [|split; assumption].
  split; simpl; [apply map_assign_sorted; assumption|].
  rewrite map_assign_same_keys; [assumption|assumption|].
  rewrite Hk; assumption.
Qed.

Lemma update_var_same_map keys ac var c :
  In (fst var) keys -> same_map keys c ->
  same_map keys (final (update_var ac var c)).
Proof.
  intros Hin Hc; unfold update_var.
  destruct (get_var ac (fst var)) as [v|]; [|assumption].
  repeat match goal with |- context [if ?b then _ else _] => destruct b end;
    try assumption;
    try (rewrite and_then_final by reflexivity;
         apply make_or_replace_var_same_map; assumption).
  destruct Hc as (Hs & Hk); split; simpl.
  - apply map_assign_sorted; assumption.
  - rewrite map_assign_same_keys; [assumption|assumption|].
    rewrite Hk; assumption.
Qed.

Lemma update_vars_same_map keys ac vars c :
  incl (map fst vars) keys -> same_map keys c ->
  same_map keys (final (update_vars ac vars c)).
Proof.
  revert c; induction vars as [|var rest IH]; intros c Hincl Hc; simpl;
    [assumption|].
  apply and_then_keeps with (P := same_map keys).
  - apply update_var_same_map; [apply Hincl; left; reflexivity|assumption].
  - intros s Hs; apply IH; [|assumption].
    intros k Hk; apply Hincl; right; assumption.
Qed.

(** Reconciliation and [process] keep the map sorted and its keys as they
    are: no bridge variable is added or dropped after the constructor. *)
Lemma update_varlist_same_map ac c :
  sorted (varlist c) ->
  sorted (varlist (final (update_varlist ac c))) /\
  map fst (varlist (final (update_varlist ac c))) = map fst (varlist c).
Proof.
  intros Hs; apply update_vars_same_map; [apply incl_refl|split; auto].
Qed.

Lemma process_same_map ac mem c :
  sorted (varlist c) ->
  sorted (varlist (final (process ac mem c))) /\
  map fst (varlist (final (process ac mem c))) = map fst (varlist c).
Proof.
  intros Hs; unfold process.
  apply and_then_keeps with (P := same_map (map fst (varlist c))).
  - apply (update_varlist_same_map ac c Hs).
  - intros s Hsame; destruct (skipcnt s =? 0); exact Hsame.
Qed.

Lemma resolve_vars_sorted ac names c :
  sorted (varlist c) -> sorted (varlist (final (resolve_vars ac names c))).
Proof.
  revert c; induction names as [|name rest IH]; intros c Hs; simpl;
    [assumption|].
  destruct (get_var ac name) as [v|]; [|assumption].
  apply and_then_keeps with (P := fun c => sorted (varlist c)).
  - rewrite and_then_final by reflexivity; cbn [final does].
    unfold make_or_replace_var; destruct (make_var c name v);
      cbn [final does varlist set_varlist];
      [apply map_assign_sorted|]; assumption.
  - intros s Hsorted; apply IH; assumption.
Qed.

Lemma new_cfg_t_sorted ac skip_ sid names rate :
  sorted (varlist (final (new_cfg_t ac skip_ sid names rate))).
Proof. apply resolve_vars_sorted; constructor. Qed.

Lemma epoch_sorted c0 c :
  sorted (varlist c0) -> epoch c0 c ->
  sorted (varlist c) /\ map fst (varlist c) = map fst (varlist c0).
Proof.
  intros H0; induction 1 as [|c ac mem Hc (Hs & Hk)]; [split; auto|].
  destruct (process_same_map ac mem c Hs) as (Hs' & Hk').
  split; [assumption|congruence].
Qed.

(** ** Counting the calls of a pass *)

Lemma count_set_buf_address_app name l1 l2 :
  count_set_buf_address name (l1 ++ l2) =
  (count_set_buf_address name l1 + count_set_buf_address name l2)%nat.
Proof.
  unfold count_set_buf_address; rewrite filter_app; apply length_app.
Qed.

Lemma count_rebuilds_app name l1 l2 :
  count_rebuilds name (l1 ++ l2) =
  (count_rebuilds name l1 + count_rebuilds name l2)%nat.
Proof. unfold count_rebuilds; rewrite filter_app; apply length_app. Qed.

Lemma make_or_replace_var_calls name v c :
  calls (make_or_replace_var name v c) = [Make_or_replace_var name v].
Proof.
  unfold make_or_replace_var; destruct (make_var c name v); reflexivity.
Qed.

(** The loop body calls nothing on a bridge variable other than its own. *)
Lemma update_var_other ac var c name :
  fst var <> name ->
  count_set_buf_address name (calls (update_var ac var c)) = 0%nat /\
  count_rebuilds name (calls (update_var ac var c)) = 0%nat.
Proof.
  intros Hne; apply String.eqb_neq in Hne.
  unfold update_var, count_set_buf_address, count_rebuilds.
  destruct (get_var ac (fst var)) as [v|]; [|split; reflexivity].
  repeat match goal with |- context [if ?b then _ else _] => destruct b end;
    rewrite ?and_then_calls, ?make_or_replace_var_calls by reflexivity;
    simpl; rewrite ?Hne; split; reflexivity.
Qed.

Lemma update_vars_others ac vars c name :
  ~ In name (map fst vars) ->
  count_set_buf_address name (calls (update_vars ac vars c)) = 0%nat /\
  count_rebuilds name (calls (update_vars ac vars c)) = 0%nat.
Proof.
  revert c; induction vars as [|var rest IH]; intros c Hnot; simpl;
    [split; reflexivity|].
  simpl in Hnot.
  destruct (update_var_other ac var c name ltac:(tauto)) as (H1 & H2).
  unfold and_then; destruct (thrown (update_var ac var c)); [auto|]; simpl.
  destruct (IH (final (update_var ac var c)) ltac:(tauto)) as (H3 & H4).
  rewrite count_set_buf_address_app, count_rebuilds_app; lia.
Qed.

Lemma update_vars_repoints_once ac vars c name a v :
  thrown (update_vars ac vars c) = None ->
  NoDup (map fst vars) ->
  In (name, a) vars ->
  get_var ac name = Some v ->
  get_buf_address a <> data v ->
  var_data_type a = data_type v ->
  unsigned_cast (channel_count (info a)) = num_entries v ->
  count_set_buf_address name (calls (update_vars ac vars c)) = 1%nat /\
  count_rebuilds name (calls (update_vars ac vars c)) = 0%nat.
Proof.
  intros Hok Hnodup Hin Hv Hbuf Htype Hcount.
  revert c Hok Hnodup Hin; induction vars as [|var rest IH];
    intros c Hok Hnodup Hin; [contradiction|].
  simpl in Hok, Hnodup |- *; inversion Hnodup as [|k ks Hk Hks]; subst.
  destruct (thrown (update_var ac var c)) as [e|] eqn:Hvar.
  { rewrite (and_then_thrown _ _ e Hvar) in Hok; congruence. }
  rewrite and_then_thrown_after in Hok by assumption.
  rewrite and_then_calls by assumption.
  rewrite count_set_buf_address_app, count_rebuilds_app.
  destruct Hin as [->|Hin].
  - destruct (update_vars_others ac rest (final (update_var ac (name, a) c))
                name Hk) as (H1 & H2).
    rewrite H1, H2.
    rewrite (update_var_repoints ac name a c v) by assumption.
    unfold count_set_buf_address, count_rebuilds; simpl.
    rewrite String.eqb_refl; split; reflexivity.
  - assert (Hne : fst var <> name).
    { intros <-; apply Hk; apply in_map_iff; exists (fst var, a); auto. }
    destruct (update_var_other ac var c name Hne) as (H1 & H2).
    destruct (IH _ Hok Hks Hin) as (H3 & H4).
    rewrite H1, H2, H3, H4; split; reflexivity.
Qed.

Lemma sorted_NoDup l : sorted l -> NoDup (map fst l).
Proof.
  unfold sorted; induction 1 as [|x l Hl IH Hx]; simpl; constructor;
    [|assumption].
  intros Hin; apply in_map_iff in Hin; destruct Hin as (y & Heq & Hy).
  pose proof (proj1 (Forall_forall _ _) Hx y Hy) as Hlt.
  unfold key_lt in Hlt; rewrite Heq, compare_refl in Hlt; discriminate.
Qed.

(** The address-only change of a variable of a scalar type.  In a pass
    that returns, a bridge variable whose descriptor differs from it in the
    address only, with the channel count equal to the number of entries,
    gets one call of [set_buf_address] and no rebuild. *)
Lemma address_only_change_repoints_once ac c name a v :
  thrown (update_varlist ac c) = None ->
  sorted (varlist c) ->
  In (name, a) (varlist c) ->
  get_var ac name = Some v ->
  get_buf_address a <> data v ->
  var_data_type a = data_type v ->
  unsigned_cast (channel_count (info a)) = num_entries v ->
  count_set_buf_address name (calls (update_varlist ac c)) = 1%nat /\
  count_rebuilds name (calls (update_varlist ac c)) = 0%nat.
Proof.
  intros Hok Hs; apply update_vars_repoints_once; auto using sorted_NoDup.
Qed.

(** ** The loop reads the map it updates *)

Lemma map_find_assign_other name a l k :
  k <> name -> map_find k (map_assign name a l) = map_find k l.
Proof.
  intros Hne; apply String.eqb_neq in Hne.
  induction l as [|[k' b] l IH]; simpl; [rewrite Hne; reflexivity|].
  destruct (String.compare name k') eqn:E; simpl.
  - apply String.compare_eq_iff in E; subst k'; rewrite Hne; reflexivity.
  - rewrite Hne; reflexivity.
  - rewrite IH; reflexivity.
Qed.

Lemma make_or_replace_var_other name v c k :
  k <> name ->
  map_find k (varlist (final (make_or_replace_var name v c))) =
  map_find k (varlist c).
Proof.
  intros Hne; unfold make_or_replace_var; destruct (make_var c name v);
    simpl; auto using map_find_assign_other.
Qed.

Lemma update_var_other_key ac var c k :
  k <> fst var ->
  map_find k (varlist (final (update_var ac var c))) = map_find k (varlist c).
Proof.
  intros Hne; unfold update_var.
  destruct (get_var ac (fst var)) as [v|]; [|reflexivity].
  repeat match goal with |- context [if ?b then _ else _] => destruct b end;
    try reflexivity;
    try (rewrite and_then_final by reflexivity;
         apply make_or_replace_var_other; assumption).
  simpl; apply map_find_assign_other; assumption.
Qed.

Lemma and_then_ext {S} (o : outcome S) (k1 k2 : S -> outcome S) :
  k1 (final o) = k2 (final o) -> o ;; k1 = o ;; k2.
Proof. intros H; unfold and_then; rewrite H; reflexivity. Qed.

Lemma update_vars_reads_map ac vars c :
  NoDup (map fst vars) ->
  (forall var, In var vars -> map_find (fst var) (varlist c) = Some (snd var)) ->
  update_vars ac vars c = update_keys ac (map fst vars) c.
Proof.
  revert c; induction vars as [|var rest IH]; intros c Hnodup Hcur;
    [reflexivity|].
  simpl in Hnodup |- *; inversion Hnodup as [|k ks Hk Hks]; subst.
  rewrite (Hcur var (or_introl eq_refl)), <- surjective_pairing.
  apply and_then_ext, IH; [assumption|].
  intros var' Hin; rewrite update_var_other_key; [apply Hcur; right; assumption|].
  intros Heq; apply Hk; rewrite <- Heq; apply in_map; assumption.
Qed.

Lemma map_find_entry l var :
  NoDup (map fst l) -> In var l -> map_find (fst var) l = Some (snd var).
Proof.
  induction l as [|[k b] l IH]; simpl; [contradiction|].
  intros Hnodup [<-|Hin]; simpl; [rewrite String.eqb_refl; reflexivity|].
  inversion Hnodup as [|k' ks Hk Hks]; subst.
  destruct (String.eqb_spec (fst var) k) as [<-|_]; [|auto].
  exfalso; apply Hk, in_map; assumption.
Qed.

(** On a map, the loop over the entries and the loop that reads the
    current value of each key are the same. *)
Lemma update_varlist_reads_map ac c :
  sorted (varlist c) ->
  update_varlist ac c = update_keys ac (map fst (varlist c)) c.
Proof.
  intros Hs; apply sorted_NoDup in Hs.
  apply update_vars_reads_map; [assumption|].
  intros var Hin; apply map_find_entry; assumption.
Qed.

End Properties.

(** * Further properties *)

Section Further.
Context {X : external_decls}.

(** ** The visit of one entry in a pass *)

Lemma update_vars_other_key ac vars c k :
  ~ In k (map fst vars) ->
  map_find k (varlist (final (update_vars ac vars c))) = map_find k (varlist c).
Proof.
  revert c; induction vars as [|var rest IH]; intros c Hnot; simpl;
    [reflexivity|].
  simpl in Hnot.
  assert (Hvar : map_find k (varlist (final (update_var ac var c)))
                 = map_find k (varlist c))
    by (apply update_var_other_key; intros ->; apply Hnot; left; reflexivity).
  unfold and_then; destruct (thrown (update_var ac var c)); [assumption|].
  simpl; rewrite IH by tauto; assumption.
Qed.

(** In a pass that returns, the entry [(name, a)] is visited in a state
    [c'] in which the map still holds [a] under [name]; what the pass does
    to this key is what the loop body does there. *)
Lemma update_vars_visit ac vars c name a :
  NoDup (map fst vars) ->
  (forall var, In var vars -> map_find (fst var) (varlist c) = Some (snd var)) ->
  In (name, a) vars ->
  thrown (update_vars ac vars c) = None ->
  exists c',
    same_settings c c' /\
    map_find name (varlist c') = Some a /\
    thrown (update_var ac (name, a) c') = None /\
    map_find name (varlist (final (update_vars ac vars c))) =
      map_find name (varlist (final (update_var ac (name, a) c'))) /\
    count_set_buf_address name (calls (update_vars ac vars c)) =
      count_set_buf_address name (calls (update_var ac (name, a) c')) /\
    count_rebuilds name (calls (update_vars ac vars c)) =
      count_rebuilds name (calls (update_var ac (name, a) c')).
Proof.
  revert c; induction vars as [|var rest IH]; intros c Hnodup Hcur Hin Hok;
    [contradiction|].
  simpl in Hnodup, Hok |- *; inversion Hnodup as [|k ks Hk Hks]; subst.
  destruct (thrown (update_var ac var c)) as [e|] eqn:Hvar.
  { rewrite (and_then_thrown _ _ e Hvar) in Hok; congruence. }
  rewrite and_then_thrown_after in Hok by assumption.
  rewrite and_then_final, and_then_calls by assumption.
  rewrite count_set_buf_address_app, count_rebuilds_app.
  destruct Hin as [->|Hin].
  - exists c; split; [apply same_settings_refl|].
    split; [exact (Hcur (name, a) (or_introl eq_refl))|].
    split; [assumption|].
    destruct (update_vars_others ac rest (final (update_var ac (name, a) c))
                name Hk) as (H1 & H2).
    rewrite update_vars_other_key by assumption.
    rewrite H1, H2, !Nat.add_0_r; auto.
  - assert (Hne : fst var <> name).
    { intros <-; apply Hk, in_map_iff; exists (fst var, a); auto. }
    destruct (IH (final (update_var ac var c)) Hks) as (c' & Hs & Hrest);
      [|assumption|assumption|].
    + intros var' Hin'; rewrite update_var_other_key;
        [apply Hcur; right; assumption|].
      intros Heq; apply Hk; rewrite <- Heq; apply in_map; assumption.
    + exists c'; split.
      * eapply same_settings_trans; [apply update_var_settings|exact Hs].
      * destruct (update_var_other ac var c name Hne) as (H1 & H2).
        rewrite H1, H2; exact Hrest.
Qed.

(** On a sorted map every entry is visited like this. *)
Lemma update_varlist_visit ac c name a :
  sorted (varlist c) ->
  In (name, a) (varlist c) ->
  thrown (update_varlist ac c) = None ->
  exists c',
    same_settings c c' /\
    map_find name (varlist c') = Some a /\
    thrown (update_var ac (name, a) c') = None /\
    map_find name (varlist (final (update_varlist ac c))) =
      map_find name (varlist (final (update_var ac (name, a) c'))) /\
    count_set_buf_address name (calls (update_varlist ac c)) =
      count_set_buf_address name (calls (update_var ac (name, a) c')) /\
    count_rebuilds name (calls (update_varlist ac c)) =
      count_rebuilds name (calls (update_var ac (name, a) c')).
Proof.
  intros Hs Hin Hok; apply sorted_NoDup in Hs.
  apply update_vars_visit; auto.
  intros var Hvar; apply map_find_entry; assumption.
Qed.

(** The factory reads the rate and the source id of the configuration
    only. *)
Lemma make_var_same_settings c c' name v :
  same_settings c c' -> make_var c' name v = make_var c name v.
Proof.
  intros (_ & _ & Hr & Hs); unfold make_var; rewrite Hr, Hs; reflexivity.
Qed.

(** The loop body when it rebuilds. *)
Lemma update_var_rebuilds ac name a c v :
  get_var ac name = Some v ->
  var_data_type a <> data_type v \/
  (unsigned_cast (channel_count (info a)) <> expected_channel_count v /\
   (get_buf_address a = data v \/
    unsigned_cast (channel_count (info a)) <> num_entries v)) ->
  update_var ac (name, a) c =
  does [Get_var name] c ;; make_or_replace_var name v.
Proof.
  intros Hv Hcase; unfold update_var; cbn [fst snd]; rewrite Hv.
  destruct (Z.eqb_spec (var_data_type a) (data_type v)) as [Et|Et].
  - destruct Hcase as [Hcase|(Hshape & Hfirst)]; [contradiction|].
    destruct (Z.eqb_spec (unsigned_cast (channel_count (info a)))
                (expected_channel_count v)); [contradiction|].
    destruct (Z.eqb_spec (get_buf_address a) (data v));
      destruct (Z.eqb_spec (unsigned_cast (channel_count (info a)))
                  (num_entries v)); simpl; try reflexivity.
    destruct Hfirst; contradiction.
  - rewrite andb_false_r; reflexivity.
Qed.

Lemma rebuild_outcome name v c a' :
  make_var c name v = Some a' ->
  calls (does [Get_var name] c ;; make_or_replace_var name v) =
    [Get_var name; Make_or_replace_var name v] /\
  map_find name
    (varlist (final (does [Get_var name] c ;; make_or_replace_var name v)))
    = Some a'.
Proof.
  intros Ha; rewrite and_then_calls, and_then_final by reflexivity.
  cbn [final does calls]; unfold make_or_replace_var; rewrite Ha; simpl.
  split; [reflexivity|apply map_find_assign].
Qed.

Lemma rebuild_not_thrown name v c :
  thrown (does [Get_var name] c ;; make_or_replace_var name v) = None ->
  exists a', make_var c name v = Some a'.
Proof.
  rewrite and_then_thrown_after by reflexivity; cbn [final does].
  unfold make_or_replace_var; destruct (make_var c name v) as [a'|];
    [eauto|discriminate].
Qed.

(** A pass that returns rebuilds a bridge variable once when it has to. *)
Lemma update_varlist_rebuilds ac c name a v :
  sorted (varlist c) ->
  thrown (update_varlist ac c) = None ->
  In (name, a) (varlist c) ->
  get_var ac name = Some v ->
  0 <= num_entries v < 4294967296 ->
  var_data_type a <> data_type v \/
  (unsigned_cast (channel_count (info a)) <> expected_channel_count v /\
   (get_buf_address a = data v \/
    unsigned_cast (channel_count (info a)) <> num_entries v)) ->
  count_rebuilds name (calls (update_varlist ac c)) = 1%nat /\
  count_set_buf_address name (calls (update_varlist ac c)) = 0%nat /\
  exists a',
    make_var c name v = Some a' /\
    map_find name (varlist (final (update_varlist ac c))) = Some a' /\
    in_sync a' v.
Proof.
  intros Hs Hok Hin Hv Hn Hcase.
  destruct (update_varlist_visit ac c name a Hs Hin Hok)
    as (c' & Hset & _ & Hthrown & Hfind & Hcount & Hrebuilds).
  rewrite (update_var_rebuilds ac name a c' v Hv Hcase) in *.
  destruct (rebuild_not_thrown _ _ _ Hthrown) as (a' & Ha').
  destruct (rebuild_outcome _ _ _ _ Ha') as (Hcalls & Hmap).
  rewrite Hcount, Hrebuilds, Hfind, Hcalls, Hmap.
  unfold count_rebuilds, count_set_buf_address; simpl.
  rewrite String.eqb_refl; split; [reflexivity|]; split; [reflexivity|].
  rewrite (make_var_same_settings c c' name v Hset) in Ha'.
  exists a'; split; [assumption|]; split; [reflexivity|].
  apply (make_var_in_sync c name v a' Hn Ha').
Qed.

(** ** Reconciliation, case by case *)

(** X1.  In a pass that returns, a bridge variable whose type id differs
    from that of its descriptor is rebuilt by one call of
    [make_or_replace_var], without any call of [set_buf_address], whatever
    its address and channel count: afterwards the map holds what the
    factory builds for the descriptor, which passes all tests of the
    reconciliation; for a complex descriptor of [n < 2^30] entries it has
    [2 n] channels. *)
Theorem type_change_rebuilds_once (ac : algo_comm_t) (c : cfg_t)
    (name : string) (a : save_var_base_t) (v : comm_var_t)
    (Hsorted : sorted (varlist c))
    (Hok : thrown (update_varlist ac c) = None)
    (Hin : In (name, a) (varlist c))
    (Hv : get_var ac name = Some v)
    (Hn : 0 <= num_entries v < 4294967296)
    (Htype : var_data_type a <> data_type v) :
  count_rebuilds name (calls (update_varlist ac c)) = 1%nat /\
  count_set_buf_address name (calls (update_varlist ac c)) = 0%nat /\
  exists a',
    make_var c name v = Some a' /\
    map_find name (varlist (final (update_varlist ac c))) = Some a' /\
    in_sync a' v /\
    (data_type v = MHA_AC_MHACOMPLEX -> num_entries v < 1073741824 ->
     channel_count (info a') = 2 * num_entries v).
Proof.
  destruct (update_varlist_rebuilds ac c name a v Hsorted Hok Hin Hv Hn
              (or_introl Htype)) as (H1 & H2 & a' & Ha' & Hfind & Hsync).
  split; [assumption|]; split; [assumption|].
  exists a'; repeat split; try assumption; try apply Hsync.
  intros Hcomplex Hsmall; rewrite (make_var_complex c name v Hcomplex) in Ha'.
  pose proof (f_equal (option_map (fun x => channel_count (info x))) Ha')
    as Hcc; cbn [option_map info channel_count lsl_stream_info] in Hcc.
  rewrite unsigned_cast_small, int32_cast_small in Hcc by lia; congruence.
Qed.

(** X2.  In a pass that returns, a bridge variable of the right type whose
    channel count is not the one expected for its descriptor is rebuilt by
    one call of [make_or_replace_var], unless the first test takes it for a
    change of the address alone (the address differs and the channel count
    equals the number of entries, which cannot be for the scalar types). *)
Theorem shape_change_rebuilds_once (ac : algo_comm_t) (c : cfg_t)
    (name : string) (a : save_var_base_t) (v : comm_var_t)
    (Hsorted : sorted (varlist c))
    (Hok : thrown (update_varlist ac c) = None)
    (Hin : In (name, a) (varlist c))
    (Hv : get_var ac name = Some v)
    (Hn : 0 <= num_entries v < 4294967296)
    (Htype : var_data_type a = data_type v)
    (Hshape : unsigned_cast (channel_count (info a))
              <> expected_channel_count v)
    (Hfirst : data_type v <> MHA_AC_MHACOMPLEX \/
              get_buf_address a = data v \/
              unsigned_cast (channel_count (info a)) <> num_entries v) :
  count_rebuilds name (calls (update_varlist ac c)) = 1%nat /\
  count_set_buf_address name (calls (update_varlist ac c)) = 0%nat /\
  exists a',
    make_var c name v = Some a' /\
    map_find name (varlist (final (update_varlist ac c))) = Some a' /\
    in_sync a' v.
Proof.
  apply (update_varlist_rebuilds ac c name a v Hsorted Hok Hin Hv Hn).
  right; split; [assumption|].
  destruct Hfirst as [Hscalar|[Haddr|Hcount]]; auto.
  right; revert Hshape; unfold expected_channel_count.
  destruct (Z.eqb_spec (data_type v) MHA_AC_MHACOMPLEX); [contradiction|auto].
Qed.

(** X3.  In a pass that returns, a bridge variable whose descriptor
    differs from it in the address only (same type id, channel count equal
    to the number of entries) is repointed by one call of
    [set_buf_address] and not rebuilt: the map then holds the same bridge
    variable, with the same stream, at the new address. *)
Theorem address_change_keeps_stream (ac : algo_comm_t) (c : cfg_t)
    (name : string) (a : save_var_base_t) (v : comm_var_t)
    (Hsorted : sorted (varlist c))
    (Hok : thrown (update_varlist ac c) = None)
    (Hin : In (name, a) (varlist c))
    (Hv : get_var ac name = Some v)
    (Haddr : get_buf_address a <> data v)
    (Htype : var_data_type a = data_type v)
    (Hcount : unsigned_cast (channel_count (info a)) = num_entries v) :
  count_set_buf_address name (calls (update_varlist ac c)) = 1%nat /\
  count_rebuilds name (calls (update_varlist ac c)) = 0%nat /\
  exists a',
    map_find name (varlist (final (update_varlist ac c))) = Some a' /\
    a' = set_buf_address a (data v) /\
    info a' = info a /\ var_data_type a' = var_data_type a /\
    get_buf_address a' = data v.
Proof.
  destruct (update_varlist_visit ac c name a Hsorted Hin Hok)
    as (c' & _ & _ & _ & Hfind & Hset & Hrebuilds).
  rewrite (update_var_repoints ac name a c' v Hv Haddr Htype Hcount) in *.
  rewrite Hset, Hrebuilds, Hfind; cbn [calls final does varlist set_varlist].
  unfold count_rebuilds, count_set_buf_address; simpl.
  rewrite String.eqb_refl; split; [reflexivity|]; split; [reflexivity|].
  exists (set_buf_address a (data v)); split; [apply map_find_assign|].
  destruct a; repeat split.
Qed.

Lemma update_vars_unsupported ac vars c name a v :
  NoDup (map fst vars) ->
  In (name, a) vars ->
  map_find name (varlist c) = Some a ->
  get_var ac name = Some v ->
  var_data_type a <> data_type v ->
  ~ supported v ->
  thrown (update_vars ac vars c) <> None /\
  map_find name (varlist (final (update_vars ac vars c))) = Some a.
Proof.
  intros Hnodup Hin Hcur Hv Htype Hsup.
  revert c Hcur; induction vars as [|var rest IH]; intros c Hcur;
    [contradiction|].
  simpl in Hnodup |- *; inversion Hnodup as [|k ks Hk Hks]; subst.
  destruct Hin as [->|Hin].
  - rewrite (update_var_rebuilds ac name a c v Hv (or_introl Htype)).
    assert (Hthrown :
      thrown (does [Get_var name] c ;; make_or_replace_var name v)
      = Some (Unknown_data_type (data_type v))).
    { rewrite and_then_thrown_after by reflexivity; cbn [final does].
      unfold make_or_replace_var; rewrite (make_var_unknown c name v Hsup).
      reflexivity. }
    rewrite (and_then_thrown _ _ _ Hthrown), Hthrown.
    split; [discriminate|].
    rewrite and_then_final by reflexivity; cbn [final does].
    unfold make_or_replace_var; rewrite (make_var_unknown c name v Hsup).
    exact Hcur.
  - assert (Hne : name <> fst var).
    { intros ->; apply Hk, in_map_iff; exists (fst var, a); auto. }
    pose proof (update_var_other_key ac var c name Hne) as Hkeep.
    destruct (thrown (update_var ac var c)) as [e|] eqn:Hvar.
    + rewrite (and_then_thrown _ _ e Hvar), Hvar.
      split; [discriminate|congruence].
    + rewrite and_then_thrown_after, and_then_final by assumption.
      apply IH; [assumption|assumption|congruence].
Qed.

(** X4.  When the type id of a monitored variable has changed to one the
    factory has no case for, the pass throws and [process] with it, and
    the map still holds the old bridge variable under the name: a failed
    rebuild replaces nothing.  When every other monitored variable is
    present with a supported type, the exception is the unknown-type error
    of this variable. *)
Theorem unsupported_type_change_throws (ac : algo_comm_t) (mem : memory)
    (c : cfg_t) (name : string) (a : save_var_base_t) (v : comm_var_t)
    (Hsorted : sorted (varlist c))
    (Hin : In (name, a) (varlist c))
    (Hv : get_var ac name = Some v)
    (Htype : var_data_type a <> data_type v)
    (Hsup : ~ supported v) :
  (exists e,
      thrown (update_varlist ac c) = Some e /\
      thrown (process ac mem c) = Some e /\
      ((forall n, In n (map fst (varlist c)) -> n <> name ->
                  exists v', get_var ac n = Some v' /\ supported v') ->
       e = Unknown_data_type (data_type v))) /\
  map_find name (varlist (final (update_varlist ac c))) = Some a /\
  map_find name (varlist (final (process ac mem c))) = Some a /\
  pushes (calls (process ac mem c)) = [].
Proof.
  pose proof (sorted_NoDup _ Hsorted) as Hnodup.
  destruct (update_vars_unsupported ac (varlist c) c name a v Hnodup Hin
              (map_find_entry _ (name, a) Hnodup Hin) Hv Htype Hsup)
    as (Hthrown & Hkept).
  fold (update_varlist ac c) in Hthrown, Hkept.
  destruct (thrown (update_varlist ac c)) as [e|] eqn:He; [|congruence].
  rewrite (process_throws ac mem c e He), He.
  split; [|split; [assumption|split; [assumption|]]].
  - exists e; split; [reflexivity|]; split; [reflexivity|].
    intros Hothers.
    destruct (update_vars_error ac (varlist c) c e He)
      as [(n & -> & Hn & Habs)|(n & v' & -> & Hn & Hv' & Hbad)].
    + destruct (String.eqb_spec n name) as [->|Hne]; [congruence|].
      destruct (Hothers n Hn Hne) as (v' & Hv' & _); congruence.
    + destruct (String.eqb_spec n name) as [->|Hne]; [congruence|].
      destruct (Hothers n Hn Hne) as (v'' & Hv'' & Hgood).
      assert (v'' = v') by congruence; subst v''; contradiction.
  - apply pushes_none, update_vars_no_push.
Qed.

(** ** A second pass over the same AC space *)

Lemma expected_channel_count_scalar v :
  data_type v <> MHA_AC_MHACOMPLEX -> expected_channel_count v = num_entries v.
Proof.
  intros H; unfold expected_channel_count.
  destruct (Z.eqb_spec (data_type v) MHA_AC_MHACOMPLEX); [contradiction|].
  reflexivity.
Qed.

(** After the loop body the bridge variable of a scalar descriptor passes
    all tests. *)
Lemma update_var_settles ac name a c v :
  thrown (update_var ac (name, a) c) = None ->
  map_find name (varlist c) = Some a ->
  get_var ac name = Some v ->
  data_type v <> MHA_AC_MHACOMPLEX ->
  0 <= num_entries v < 4294967296 ->
  exists a',
    map_find name (varlist (final (update_var ac (name, a) c))) = Some a' /\
    in_sync a' v.
Proof.
  intros Hok Hcur Hv Hscalar Hn.
  pose proof (expected_channel_count_scalar v Hscalar) as Hexp.
  assert (Hrebuild :
    update_var ac (name, a) c =
      does [Get_var name] c ;; make_or_replace_var name v ->
    exists a',
      map_find name (varlist (final (update_var ac (name, a) c))) = Some a' /\
      in_sync a' v).
  { intros E; rewrite E in Hok |- *.
    destruct (rebuild_not_thrown _ _ _ Hok) as (a' & Ha').
    exists a'; split; [apply (rebuild_outcome _ _ _ _ Ha')|].
    apply (make_var_in_sync c name v a' Hn Ha'). }
  destruct (Z.eq_dec (var_data_type a) (data_type v)) as [Et|Et];
    [|apply Hrebuild, update_var_rebuilds; auto].
  destruct (Z.eq_dec (unsigned_cast (channel_count (info a))) (num_entries v))
    as [Ec|Ec].
  - destruct (Z.eq_dec (get_buf_address a) (data v)) as [Ea|Ea].
    + rewrite (update_var_in_sync ac name a c v) by congruence.
      exists a; split; [exact Hcur|]; repeat split; congruence.
    + rewrite (update_var_repoints ac name a c v) by assumption.
      exists (set_buf_address a (data v)); split; [apply map_find_assign|].
      destruct a; repeat split; simpl in *; congruence.
  - apply Hrebuild, update_var_rebuilds; [assumption|].
    right; split; [congruence|auto].
Qed.

(** A pass over entries that pass all tests only looks them up. *)
Lemma update_vars_in_sync ac vars c :
  (forall var, In var vars ->
     exists v, get_var ac (fst var) = Some v /\ in_sync (snd var) v) ->
  update_vars ac vars c = does (map (fun var => Get_var (fst var)) vars) c.
Proof.
  induction vars as [|[name a] rest IH]; intros Hall; [reflexivity|].
  destruct (Hall (name, a) (or_introl eq_refl)) as (v & Hv & H1 & H2 & H3).
  cbn [update_vars]; rewrite (update_var_in_sync ac name a c v) by assumption.
  unfold and_then; cbn [thrown does final calls].
  rewrite IH by (intros; apply Hall; right; assumption); reflexivity.
Qed.

Lemma update_varlist_settles ac c :
  sorted (varlist c) ->
  thrown (update_varlist ac c) = None ->
  (forall name v, In name (map fst (varlist c)) -> get_var ac name = Some v ->
     data_type v <> MHA_AC_MHACOMPLEX /\ 0 <= num_entries v < 4294967296) ->
  forall var, In var (varlist (final (update_varlist ac c))) ->
    exists v, get_var ac (fst var) = Some v /\ in_sync (snd var) v.
Proof.
  intros Hs Hok Hscalar [name a'] Hin'.
  destruct (update_varlist_same_map ac c Hs) as (Hs' & Hkeys).
  assert (Hname : In name (map fst (varlist c))).
  { rewrite <- Hkeys; apply in_map_iff; exists (name, a'); auto. }
  apply in_map_iff in Hname; destruct Hname as ([name0 a] & Heq & Hin).
  simpl in Heq; subst name0.
  destruct (get_var ac name) as [v|] eqn:Hv.
  - exists v; cbn [fst snd]; split; [exact Hv|].
    destruct (Hscalar name v) as (Hsc & Hn);
      [apply in_map_iff; exists (name, a); auto|assumption|].
    destruct (update_varlist_visit ac c name a Hs Hin Hok)
      as (c' & _ & Hcur & Hthrown & Hfind & _).
    destruct (update_var_settles ac name a c' v Hthrown Hcur Hv Hsc Hn)
      as (a'' & Ha'' & Hsync).
    pose proof (map_find_entry _ (name, a') (sorted_NoDup _ Hs') Hin') as He.
    cbn [fst snd] in He; rewrite Hfind, Ha'' in He.
    injection He as <-; exact Hsync.
  - exfalso; apply (update_vars_missing ac (varlist c) c name); auto.
    apply in_map_iff; exists (name, a); auto.
Qed.

(** X5.  When no monitored variable is complex, a pass that returns
    leaves every bridge variable in agreement with its descriptor: a
    second pass over the same AC space only looks the variables up, calls
    neither [set_buf_address] nor [make_or_replace_var], and changes
    nothing. *)
Theorem second_pass_is_idle (ac : algo_comm_t) (c : cfg_t)
    (Hsorted : sorted (varlist c))
    (Hok : thrown (update_varlist ac c) = None)
    (Hscalar : forall name v,
        In name (map fst (varlist c)) -> get_var ac name = Some v ->
        data_type v <> MHA_AC_MHACOMPLEX /\
        0 <= num_entries v < 4294967296) :
  update_varlist ac (final (update_varlist ac c)) =
  does (map Get_var (map fst (varlist c))) (final (update_varlist ac c)).
Proof.
  unfold update_varlist at 1.
  rewrite update_vars_in_sync
    by (apply update_varlist_settles; assumption).
  destruct (update_varlist_same_map ac c Hsorted) as (_ & <-).
  rewrite map_map; reflexivity.
Qed.

(** ** The constructor of [cfg_t] *)

Lemma supported_make_var c name v :
  supported v <-> make_var c name v <> None.
Proof.
  split.
  - intros Hs Hnone; exact (make_var_none c name v Hnone Hs).
  - intros Hsome; destruct (in_dec Z.eq_dec (data_type v)
        [MHA_AC_INT; MHA_AC_FLOAT; MHA_AC_DOUBLE; MHA_AC_MHAREAL;
         MHA_AC_MHACOMPLEX]) as [Hin|Hnot]; [exact Hin|].
    exfalso; apply Hsome, make_var_unknown; exact Hnot.
Qed.

(** One step of the loop of the constructor, for a name that is present. *)
Lemma resolve_step (ac : algo_comm_t) (name : string) (v : comm_var_t)
    (c : cfg_t) :
  let o := does [Get_var name] c ;; make_or_replace_var name v in
  calls o = [Get_var name; Make_or_replace_var name v] /\
  same_settings c (final o) /\
  (forall k, k <> name ->
     map_find k (varlist (final o)) = map_find k (varlist c)) /\
  (supported v ->
     thrown o = None /\
     exists a, make_var c name v = Some a /\
               map_find name (varlist (final o)) = Some a) /\
  (~ supported v -> thrown o = Some (Unknown_data_type (data_type v))).
Proof.
  intros o; unfold o.
  rewrite and_then_calls, and_then_final, and_then_thrown_after
    by reflexivity; cbn [final does calls].
  rewrite make_or_replace_var_calls.
  split; [reflexivity|].
  split; [apply make_or_replace_var_settings|].
  split; [intros k Hk; apply make_or_replace_var_other; assumption|].
  unfold make_or_replace_var; split.
  - intros Hs; apply (supported_make_var c name v) in Hs.
    destruct (make_var c name v) as [a|]; [|contradiction].
    split; [reflexivity|]; exists a; split; [reflexivity|].
    apply map_find_assign.
  - intros Hs; rewrite (make_var_unknown c name v Hs); reflexivity.
Qed.

Lemma resolve_vars_cons ac name rest c v :
  get_var ac name = Some v ->
  resolve_vars ac (name :: rest) c =
  does [Get_var name] c ;; make_or_replace_var name v ;; resolve_vars ac rest.
Proof. intros Hv; cbn [resolve_vars]; rewrite Hv; reflexivity. Qed.

(** The constructor returns exactly when every name is present with a
    supported type. *)
Lemma resolve_vars_ok_iff ac names c :
  thrown (resolve_vars ac names c) = None <->
  forall name, In name names ->
    exists v, get_var ac name = Some v /\ supported v.
Proof.
  revert c; induction names as [|name rest IH]; intros c.
  - split; [intros _ ? []|reflexivity].
  - destruct (get_var ac name) as [v|] eqn:Hv.
    + rewrite (resolve_vars_cons ac name rest c v Hv).
      destruct (resolve_step ac name v c) as (_ & _ & _ & Hgood & Hbad).
      set (o := does [Get_var name] c ;; make_or_replace_var name v) in *.
      destruct (in_dec Z.eq_dec (data_type v)
          [MHA_AC_INT; MHA_AC_FLOAT; MHA_AC_DOUBLE; MHA_AC_MHAREAL;
           MHA_AC_MHACOMPLEX]) as [Hs|Hs].
      * destruct (Hgood Hs) as (Ho & _).
        rewrite and_then_thrown_after by assumption; rewrite IH.
        split.
        -- intros Hrest n [<-|Hn]; [exists v; auto|auto].
        -- intros Hall n Hn; apply Hall; right; assumption.
      * rewrite (and_then_thrown _ _ _ (Hbad Hs)), (Hbad Hs).
        split; [discriminate|].
        intros Hall; destruct (Hall name (or_introl eq_refl)) as (v' & Hv' & Hs').
        assert (v' = v) by congruence; subst v'; contradiction.
    + cbn [resolve_vars]; rewrite Hv; split; [discriminate|].
      intros Hall; destruct (Hall name (or_introl eq_refl)) as (v' & Hv' & _).
      congruence.
Qed.

(** The exception of the constructor is that of the first name that is
    absent or of an unsupported type. *)
Lemma resolve_vars_first_failure ac pre n post c :
  (forall m, In m pre -> exists v, get_var ac m = Some v /\ supported v) ->
  (get_var ac n = None ->
   thrown (resolve_vars ac (pre ++ n :: post) c) = Some (No_such_variable n)) /\
  (forall v, get_var ac n = Some v -> ~ supported v ->
   thrown (resolve_vars ac (pre ++ n :: post) c)
   = Some (Unknown_data_type (data_type v))).
Proof.
  revert c; induction pre as [|m pre IH]; intros c Hpre.
  - split.
    + intros Hn; cbn [app resolve_vars]; rewrite Hn; reflexivity.
    + intros v Hv Hs; cbn [app]; rewrite (resolve_vars_cons ac n post c v Hv).
      destruct (resolve_step ac n v c) as (_ & _ & _ & _ & Hbad).
      rewrite (and_then_thrown _ _ _ (Hbad Hs)); exact (Hbad Hs).
  - destruct (Hpre m (or_introl eq_refl)) as (v & Hv & Hs).
    cbn [app]; rewrite (resolve_vars_cons ac m _ c v Hv).
    destruct (resolve_step ac m v c) as (_ & _ & _ & Hgood & _).
    destruct (Hgood Hs) as (Ho & _).
    rewrite and_then_thrown_after by assumption.
    apply IH; intros m' Hm'; apply Hpre; right; assumption.
Qed.

(** X6.  The constructor of [cfg_t] returns exactly when every requested
    name is in the AC space with a type id the factory supports; otherwise
    it throws for the first name that fails: the missing-variable error
    when the name is absent, the unknown-type error when its type is not
    supported. *)
Theorem constructor_succeeds_iff (ac : algo_comm_t) (skip_ : Z)
    (sid : string) (names : list string) (rate : spec_float) :
  (thrown (new_cfg_t ac skip_ sid names rate) = None <->
   forall name, In name names ->
     exists v, get_var ac name = Some v /\ supported v) /\
  (forall pre n post,
     names = pre ++ n :: post ->
     (forall m, In m pre -> exists v, get_var ac m = Some v /\ supported v) ->
     (get_var ac n = None ->
      thrown (new_cfg_t ac skip_ sid names rate) = Some (No_such_variable n)) /\
     (forall v, get_var ac n = Some v -> ~ supported v ->
      thrown (new_cfg_t ac skip_ sid names rate)
      = Some (Unknown_data_type (data_type v)))).
Proof.
  unfold new_cfg_t; split; [apply resolve_vars_ok_iff|].
  intros pre n post -> Hpre; apply resolve_vars_first_failure; assumption.
Qed.

Lemma resolve_vars_other_key ac names c k :
  ~ In k names ->
  map_find k (varlist (final (resolve_vars ac names c))) =
  map_find k (varlist c).
Proof.
  revert c; induction names as [|name rest IH]; intros c Hnot; [reflexivity|].
  destruct (get_var ac name) as [v|] eqn:Hv;
    [|cbn [resolve_vars]; rewrite Hv; reflexivity].
  rewrite (resolve_vars_cons ac name rest c v Hv).
  destruct (resolve_step ac name v c) as (_ & _ & Hother & _).
  set (o := does [Get_var name] c ;; make_or_replace_var name v) in *.
  assert (Hk : map_find k (varlist (final o)) = map_find k (varlist c)).
  { apply Hother; intros ->; apply Hnot; left; reflexivity. }
  unfold and_then at 1; destruct (thrown o); [exact Hk|].
  cbn [final]; rewrite IH; [exact Hk|].
  intros Hin; apply Hnot; right; assumption.
Qed.

(** After a constructor that returned, the map holds for every name what
    the factory builds for its descriptor. *)
Lemma resolve_vars_find ac names c name v :
  thrown (resolve_vars ac names c) = None ->
  In name names -> get_var ac name = Some v ->
  exists a,
    make_var c name v = Some a /\
    map_find name (varlist (final (resolve_vars ac names c))) = Some a.
Proof.
  revert c; induction names as [|n rest IH]; intros c Hok Hin Hv;
    [contradiction|].
  assert (Hall := proj1 (resolve_vars_ok_iff ac (n :: rest) c) Hok).
  destruct (Hall n (or_introl eq_refl)) as (vn & Hvn & Hsn).
  rewrite (resolve_vars_cons ac n rest c vn Hvn) in Hok |- *.
  destruct (resolve_step ac n vn c) as (_ & Hset & _ & Hgood & _).
  destruct (Hgood Hsn) as (Ho & an & Han & Hfind).
  set (o := does [Get_var n] c ;; make_or_replace_var n vn) in *.
  rewrite and_then_thrown_after in Hok by assumption.
  rewrite and_then_final by assumption.
  destruct (in_dec string_dec name rest) as [Hrest|Hrest].
  - destruct (IH (final o) Hok Hrest Hv) as (a & Ha & Hm).
    exists a; split; [|exact Hm].
    rewrite <- (make_var_same_settings c (final o) name v Hset); exact Ha.
  - destruct Hin as [->|Hin]; [|contradiction].
    assert (vn = v) by congruence; subst vn.
    exists an; split; [exact Han|].
    rewrite resolve_vars_other_key by assumption; exact Hfind.
Qed.

Lemma resolve_vars_keys ac names c k :
  In k (map fst (varlist (final (resolve_vars ac names c)))) ->
  In k (map fst (varlist c)) \/ In k names.
Proof.
  intros Hin; apply in_map_iff in Hin; destruct Hin as (var & <- & Hvar).
  destruct (resolve_vars_built ac names c var Hvar) as [Hold|(v & Hcall)].
  - left; apply in_map; assumption.
  - right; clear Hvar; revert c Hcall.
    induction names as [|n rest IH]; intros c Hcall; [destruct Hcall|].
    destruct (get_var ac n) as [vn|] eqn:Hvn.
    + rewrite (resolve_vars_cons ac n rest c vn Hvn) in Hcall.
      destruct (resolve_step ac n vn c) as (Hcalls & _).
      set (o := does [Get_var n] c ;; make_or_replace_var n vn) in *.
      unfold and_then in Hcall; destruct (thrown o);
        cbn [calls] in Hcall; [|apply in_app_or in Hcall];
        rewrite Hcalls in Hcall.
      * destruct Hcall as [Hc|[Hc|[]]]; [discriminate|].
        injection Hc as -> _; left; reflexivity.
      * destruct Hcall as [[Hc|[Hc|[]]]|Hc]; [discriminate| |right; eauto].
        injection Hc as -> _; left; reflexivity.
    + cbn [resolve_vars] in Hcall; rewrite Hvn in Hcall.
      destruct Hcall as [Hc|[]]; discriminate.
Qed.

Lemma resolve_vars_count ac names c name :
  thrown (resolve_vars ac names c) = None ->
  count_rebuilds name (calls (resolve_vars ac names c)) =
  count_occ string_dec names name.
Proof.
  revert c; induction names as [|n rest IH]; intros c Hok; [reflexivity|].
  assert (Hall := proj1 (resolve_vars_ok_iff ac (n :: rest) c) Hok).
  destruct (Hall n (or_introl eq_refl)) as (vn & Hvn & Hsn).
  rewrite (resolve_vars_cons ac n rest c vn Hvn) in Hok |- *.
  destruct (resolve_step ac n vn c) as (Hcalls & _ & _ & Hgood & _).
  destruct (Hgood Hsn) as (Ho & _).
  set (o := does [Get_var n] c ;; make_or_replace_var n vn) in *.
  rewrite and_then_thrown_after in Hok by assumption.
  rewrite and_then_calls, count_rebuilds_app, Hcalls, (IH _ Hok)
    by assumption.
  unfold count_rebuilds at 1; cbn [filter is_rebuild List.length count_occ].
  destruct (string_dec n name) as [->|Hne].
  - rewrite String.eqb_refl; reflexivity.
  - apply String.eqb_neq in Hne; rewrite Hne; reflexivity.
Qed.

(** X7.  A constructor that returned has called [make_or_replace_var]
    once for every element of the list of names (twice for a name listed
    twice) and left a sorted map whose keys are the names, each with the
    bridge variable the factory builds for its descriptor; these agree
    with the AC space, so that a reconciliation over the same AC space
    only looks the variables up, for the complex type as well. *)
Theorem constructor_builds_every_name (ac : algo_comm_t) (skip_ : Z)
    (sid : string) (names : list string) (rate : spec_float)
    (Hok : thrown (new_cfg_t ac skip_ sid names rate) = None)
    (Hrange : forall name v, get_var ac name = Some v ->
                             0 <= num_entries v < 4294967296) :
  sorted (varlist (final (new_cfg_t ac skip_ sid names rate))) /\
  (forall key,
     In key (map fst (varlist (final (new_cfg_t ac skip_ sid names rate))))
     <-> In key names) /\
  (forall name, In name names ->
     exists v a,
       get_var ac name = Some v /\
       map_find name (varlist (final (new_cfg_t ac skip_ sid names rate)))
         = Some a /\
       make_var (final (new_cfg_t ac skip_ sid names rate)) name v = Some a /\
       in_sync a v) /\
  (forall name,
     count_rebuilds name (calls (new_cfg_t ac skip_ sid names rate)) =
     count_occ string_dec names name) /\
  update_varlist ac (final (new_cfg_t ac skip_ sid names rate)) =
  does (map Get_var
          (map fst (varlist (final (new_cfg_t ac skip_ sid names rate)))))
       (final (new_cfg_t ac skip_ sid names rate)).
Proof.
  pose proof (new_cfg_t_sorted ac skip_ sid names rate) as Hsorted.
  assert (Hnames : forall name, In name names ->
     exists v a,
       get_var ac name = Some v /\
       map_find name (varlist (final (new_cfg_t ac skip_ sid names rate)))
         = Some a /\
       make_var (final (new_cfg_t ac skip_ sid names rate)) name v = Some a /\
       in_sync a v).
  { intros name Hin; unfold new_cfg_t in *.
    destruct (proj1 (resolve_vars_ok_iff _ _ _) Hok name Hin) as (v & Hv & _).
    destruct (resolve_vars_find _ _ _ name v Hok Hin Hv) as (a & Ha & Hfind).
    exists v, a; split; [assumption|]; split; [assumption|].
    split; [|exact (make_var_in_sync _ name v a (Hrange name v Hv) Ha)].
    rewrite (make_var_same_settings _ _ name v (new_cfg_t_settings _ _ _)).
    exact Ha. }
  assert (Hkeys : forall key,
     In key (map fst (varlist (final (new_cfg_t ac skip_ sid names rate))))
     -> In key names).
  { intros key Hin; unfold new_cfg_t in Hin.
    destruct (resolve_vars_keys _ _ _ key Hin) as [[]|H]; exact H. }
  split; [assumption|]; split; [|split; [assumption|split]].
  - intros key; split; [apply Hkeys|].
    intros Hin; destruct (Hnames key Hin) as (v & a & _ & Hfind & _).
    unfold new_cfg_t in *; apply resolve_vars_all; assumption.
  - intros name; apply resolve_vars_count; exact Hok.
  - unfold update_varlist; rewrite update_vars_in_sync; [rewrite map_map; reflexivity|].
    intros [k a] Hin.
    assert (Hk : In k names) by (apply Hkeys, in_map_iff; exists (k, a); auto).
    destruct (Hnames k Hk) as (v & a' & Hv & Hfind & _ & Hsync).
    pose proof (map_find_entry _ (k, a) (sorted_NoDup _ Hsorted) Hin) as He.
    cbn [fst snd] in He; rewrite He in Hfind.
    injection Hfind as <-; exists v; auto.
Qed.

(** ** Invariants of an epoch *)

Lemma make_var_well_formed c name v a :
  make_var c name v = Some a ->
  info_name (info a) = name /\ info_source_id (info a) = source_id c /\
  stream_of_type a.
Proof.
  unfold make_var.
  repeat match goal with
         | |- context [if ?x =? ?y then _ else _] =>
             destruct (Z.eqb_spec x y)
         end; intros [= <-]; repeat split; assumption.
Qed.

Lemma set_buf_address_stream_of_type a p :
  stream_of_type a -> stream_of_type (set_buf_address a p).
Proof. destruct a as [[] ? ? ?|? ?]; exact (fun H => H). Qed.

Lemma make_or_replace_var_well_formed sid name v c :
  well_formed_for sid c ->
  well_formed_for sid (final (make_or_replace_var name v c)).
Proof.
  intros (Hsid & Hwf); unfold make_or_replace_var.
  destruct (make_var c name v) as [a|] eqn:Ha; [|split; assumption].
  split; [assumption|]; intros var Hvar; cbn [final does] in *.
  cbn [varlist set_varlist source_id] in *.
  destruct (map_assign_entries _ _ _ _ Hvar) as [->|Hold]; [|auto].
  apply (make_var_well_formed c name v a Ha).
Qed.

Lemma update_var_well_formed sid ac var c :
  info_name (info (snd var)) = fst var /\
  info_source_id (info (snd var)) = sid /\ stream_of_type (snd var) ->
  well_formed_for sid c ->
  well_formed_for sid (final (update_var ac var c)).
Proof.
  intros (Hname & Hsource & Htype) Hc; unfold update_var.
  destruct (get_var ac (fst var)) as [v|]; [|assumption].
  repeat match goal with |- context [if ?b then _ else _] => destruct b end;
    try assumption;
    try (rewrite and_then_final by reflexivity;
         apply make_or_replace_var_well_formed; assumption).
  destruct Hc as (Hsid & Hwf); split; [assumption|].
  intros var' Hvar'; cbn [final does varlist set_varlist source_id] in *.
  destruct (map_assign_entries _ _ _ _ Hvar') as [->|Hold]; [|auto].
  cbn [fst snd]; rewrite set_buf_address_info.
  split; [assumption|]; split; [congruence|].
  apply set_buf_address_stream_of_type; assumption.
Qed.

Lemma update_vars_well_formed sid ac vars c :
  (forall var, In var vars ->
     info_name (info (snd var)) = fst var /\
     info_source_id (info (snd var)) = sid /\ stream_of_type (snd var)) ->
  well_formed_for sid c ->
  well_formed_for sid (final (update_vars ac vars c)).
Proof.
  revert c; induction vars as [|var rest IH]; intros c Hvars Hc; simpl;
    [assumption|].
  apply and_then_keeps with (P := well_formed_for sid).
  - apply update_var_well_formed; [apply Hvars; left; reflexivity|assumption].
  - intros s Hs; apply IH; [intros; apply Hvars; right|]; assumption.
Qed.

Lemma process_well_formed sid ac mem c :
  well_formed_for sid c -> well_formed_for sid (final (process ac mem c)).
Proof.
  intros Hc; unfold process.
  apply and_then_keeps with (P := well_formed_for sid).
  - apply update_vars_well_formed; [|assumption].
    destruct Hc as (Hsid & Hwf); intros var Hvar.
    destruct (Hwf var Hvar) as (H1 & H2 & H3); repeat split; congruence.
  - intros s Hs; destruct (skipcnt s =? 0); exact Hs.
Qed.

Lemma resolve_vars_well_formed sid ac names c :
  well_formed_for sid c ->
  well_formed_for sid (final (resolve_vars ac names c)).
Proof.
  revert c; induction names as [|name rest IH]; intros c Hc; simpl;
    [assumption|].
  destruct (get_var ac name) as [v|]; [|assumption].
  apply and_then_keeps with (P := well_formed_for sid); [|auto].
  rewrite and_then_final by reflexivity.
  apply make_or_replace_var_well_formed; assumption.
Qed.

(** X8.  In every configuration of an epoch, also after a cycle that
    threw, the map is sorted and has the keys the constructor gave it (no
    bridge variable is added or dropped), and every stream is named after
    its key, carries the source id given to the constructor and has the
    type label and channel format of its kind of bridge variable. *)
Theorem epoch_keeps_registry (ac : algo_comm_t) (skip_ : Z) (sid : string)
    (names : list string) (rate : spec_float) (c : cfg_t)
    (Hepoch : epoch (final (new_cfg_t ac skip_ sid names rate)) c) :
  sorted (varlist c) /\
  map fst (varlist c) =
    map fst (varlist (final (new_cfg_t ac skip_ sid names rate))) /\
  source_id c = sid /\ skip c = skip_ /\
  forall var, In var (varlist c) ->
    info_name (info (snd var)) = fst var /\
    info_source_id (info (snd var)) = sid /\
    stream_of_type (snd var).
Proof.
  destruct (epoch_sorted _ c (new_cfg_t_sorted ac skip_ sid names rate) Hepoch)
    as (Hs & Hk).
  split; [assumption|]; split; [assumption|]; clear Hs Hk.
  assert (Hwf : well_formed_for sid c /\ skip c = skip_).
  { induction Hepoch as [|c ac' mem Hc (IHwf & IHskip)].
    - split; [|apply throttle_skip_start].
      apply resolve_vars_well_formed; split; [reflexivity|intros ? []].
    - split; [apply process_well_formed; assumption|].
      unfold process.
      apply and_then_keeps with (P := fun c' => skip c' = skip_).
      + destruct (update_varlist_settings ac' c) as (_ & H & _); congruence.
      + intros s Hskip; destruct (skipcnt s =? 0); exact Hskip. }
  destruct Hwf as ((Hsid & Hwf) & Hskip).
  split; [assumption|]; split; [assumption|].
  intros var Hvar; destruct (Hwf var Hvar) as (H1 & H2 & H3).
  repeat split; congruence.
Qed.

(** ** The number of samples of a run *)

Lemma pushed_samples_cons o outs :
  pushed_samples (o :: outs) =
  (List.length (pushes (calls o)) + pushed_samples outs)%nat.
Proof. unfold pushed_samples; cbn [flat_map]; apply length_app. Qed.

Lemma filter_no_push (f : call -> bool) l :
  (forall x, is_push x = false -> f x = false) ->
  Forall (fun x => is_push x = false) l -> filter f l = [].
Proof.
  intros Hf; induction 1 as [|x l Hx _ IH]; simpl; [reflexivity|].
  rewrite (Hf x Hx); exact IH.
Qed.

(** A frame of every entry holds one sample for the stream of each key,
    and none for any other name, when the streams are named after the
    keys. *)
Lemma frames_to_key mem name (l : varlist_t) :
  NoDup (map fst l) ->
  (forall var, In var l -> info_name (info (snd var)) = fst var) ->
  List.length (filter (is_push_to name) (map (frame mem) l)) =
  if in_dec string_dec name (map fst l) then 1%nat else 0%nat.
Proof.
  induction l as [|var l IH]; intros Hnodup Hnamed; [reflexivity|].
  cbn [map] in Hnodup; inversion Hnodup as [|k ks Hk Hks]; subst.
  specialize (IH Hks (fun v Hv => Hnamed v (or_intror Hv))).
  cbn [map filter frame is_push_to]; fold (frame mem).
  rewrite (Hnamed var (or_introl eq_refl)).
  destruct (String.eqb_spec (fst var) name) as [<-|Hne].
  - cbn [List.length]; rewrite IH.
    destruct (in_dec string_dec (fst var) (map fst l)) as [Hin|_];
      [contradiction|].
    destruct (in_dec string_dec (fst var) (fst var :: map fst l)) as [_|Hn];
      [reflexivity|exfalso; apply Hn; left; reflexivity].
  - rewrite IH.
    destruct (in_dec string_dec name (map fst l)) as [Hin|Hn];
      destruct (in_dec string_dec name (fst var :: map fst l)) as [Hin'|Hn'];
      try reflexivity.
    + exfalso; apply Hn'; right; assumption.
    + destruct Hin' as [E|Hin']; [congruence|contradiction].
Qed.

(** The calls that [f] selects among the pushes, over cycles that all
    return: [m] in each sending cycle, when [m] of the frames of the map
    are selected. *)
Lemma run_selected (f : call -> bool) (m : nat) (keys : list string)
    (Hf : forall x, is_push x = false -> f x = false)
    (Hm : forall mem c,
        sorted (varlist c) -> map fst (varlist c) = keys -> well_formed c ->
        List.length (filter f (map (frame mem) (varlist c))) = m) :
  forall (inputs : list (algo_comm_t * memory)) (c : cfg_t),
    0 <= skipcnt c <= skip c /\ skip c < 4294967296 ->
    sorted (varlist c) -> map fst (varlist c) = keys -> well_formed c ->
    Forall (fun o => thrown o = None) (run inputs c) ->
    List.length (run inputs c) = List.length inputs /\
    Z.of_nat (List.length (flat_map (fun o => filter f (calls o))
                             (run inputs c))) =
    (skip c - skipcnt c + Z.of_nat (List.length inputs)) / (skip c + 1)
    * Z.of_nat m.
Proof.
  induction inputs as [|[ac mem] rest IH];
    intros c Hrange Hsorted Hkeys Hwf Hok.
  - split; [reflexivity|].
    cbn [run flat_map List.length Z.of_nat].
    rewrite Z.add_0_r, Z.div_small by lia; reflexivity.
  - cbn [run] in Hok |- *.
    apply Forall_cons_iff in Hok; destruct Hok as (Ho & Houts).
    rewrite Ho in Houts |- *.
    assert (Hrec : thrown (update_varlist ac c) = None).
    { destruct (thrown (update_varlist ac c)) as [e|] eqn:E; [|reflexivity].
      rewrite (process_throws ac mem c e E) in Ho; congruence. }
    destruct (process_same_map ac mem c Hsorted) as (Hs' & Hk').
    rewrite Hkeys in Hk'.
    assert (Hwf' : well_formed (final (process ac mem c))).
    { apply (process_well_formed (source_id c) ac mem c); split;
        [reflexivity|assumption]. }
    destruct (update_varlist_same_map ac c Hsorted) as (Hsu & Hku).
    rewrite Hkeys in Hku.
    destruct (update_varlist_settings ac c) as (_ & Hskip & _).
    pose proof (filter_no_push f _ Hf (update_vars_no_push ac (varlist c) c))
      as Hnp.
    fold (update_varlist ac c) in Hnp.
    specialize (IH (final (process ac mem c))).
    cbn [flat_map]; rewrite length_app, Nat2Z.inj_add.
    destruct (Z.eq_dec (skipcnt c) 0) as [E|E].
    + rewrite (process_sends ac mem c Hrec E) in IH, Hs', Hk', Hwf', Houts |- *.
      cbn [calls final skipcnt skip set_skipcnt varlist] in *.
      destruct IH as (Hl & Hcount); try assumption; [lia|].
      split; [cbn [List.length]; rewrite Hl; reflexivity|].
      rewrite filter_app, Hnp; cbn [app].
      rewrite (Hm mem _ Hsu Hku Hwf'), Hcount, Hskip, E.
      cbn [List.length].
      replace (skip c - 0 + Z.of_nat (S (List.length rest)))
        with (1 * (skip c + 1) + (skip c - skip c + Z.of_nat (List.length rest)))
        by lia.
      rewrite Z.div_add_l by lia; lia.
    + assert (Hpos : 0 < skipcnt c < 4294967296) by lia.
      rewrite (process_skips ac mem c Hrec Hpos)
        in IH, Hs', Hk', Hwf', Houts |- *.
      cbn [calls final skipcnt skip set_skipcnt varlist] in *.
      destruct IH as (Hl & Hcount); try assumption; [lia|].
      split; [cbn [List.length]; rewrite Hl; reflexivity|].
      rewrite Hnp, Hcount, Hskip.
      cbn [List.length Z.of_nat]; rewrite Z.add_0_l.
      do 2 f_equal; lia.
Qed.

(** X9.  Over [n] consecutive cycles that all return, starting with the
    skip counter at [s] and the skip interval [k], the stream of each
    bridge variable is pushed [(k - s + n) / (k + 1)] samples (rounded
    down), which is [n / (k + 1)] from the start of an epoch, where
    [s = k]; no sample is pushed to a stream of any other name, so that the
    samples of the run are that many for every entry of the map. *)
Theorem throttle_sample_count (inputs : list (algo_comm_t * memory))
    (c : cfg_t)
    (Hrange : 0 <= skipcnt c <= skip c /\ skip c < 4294967296)
    (Hsorted : sorted (varlist c))
    (Hnamed : well_formed c)
    (Hok : Forall (fun o => thrown o = None) (run inputs c)) :
  List.length (run inputs c) = List.length inputs /\
  (forall name, In name (map fst (varlist c)) ->
     Z.of_nat (pushed_samples_to name (run inputs c)) =
     (skip c - skipcnt c + Z.of_nat (List.length inputs)) / (skip c + 1)) /\
  (forall name, ~ In name (map fst (varlist c)) ->
     pushed_samples_to name (run inputs c) = 0%nat) /\
  Z.of_nat (pushed_samples (run inputs c)) =
  (skip c - skipcnt c + Z.of_nat (List.length inputs)) / (skip c + 1)
  * Z.of_nat (List.length (varlist c)).
Proof.
  assert (Hto : forall name x, is_push x = false -> is_push_to name x = false).
  { intros name [| | |s d]; simpl; intros H; try reflexivity; discriminate. }
  assert (Hframes : forall name mem c',
    sorted (varlist c') -> map fst (varlist c') = map fst (varlist c) ->
    well_formed c' ->
    List.length (filter (is_push_to name) (map (frame mem) (varlist c'))) =
    if in_dec string_dec name (map fst (varlist c)) then 1%nat else 0%nat).
  { intros name mem c' Hs Hk Hwf; rewrite <- Hk.
    apply frames_to_key; [apply sorted_NoDup; assumption|].
    intros var Hvar; apply (Hwf var Hvar). }
  split; [|split; [|split]].
  - apply (run_selected is_push (List.length (varlist c))
             (map fst (varlist c)) (fun x H => H)); auto.
    intros mem c' _ Hk _; fold (pushes (map (frame mem) (varlist c'))).
    rewrite pushes_frames, length_map, <- (length_map fst), Hk.
    apply length_map.
  - intros name Hin.
    destruct (run_selected (is_push_to name) _ (map fst (varlist c))
                (Hto name) (Hframes name) inputs c Hrange Hsorted eq_refl
                Hnamed Hok) as (_ & Hcount).
    unfold pushed_samples_to; rewrite Hcount.
    destruct (in_dec string_dec name (map fst (varlist c)));
      [lia|contradiction].
  - intros name Hnot.
    destruct (run_selected (is_push_to name) _ (map fst (varlist c))
                (Hto name) (Hframes name) inputs c Hrange Hsorted eq_refl
                Hnamed Hok) as (_ & Hcount).
    unfold pushed_samples_to.
    destruct (in_dec string_dec name (map fst (varlist c)));
      [contradiction|lia].
  - apply (run_selected is_push (List.length (varlist c))
             (map fst (varlist c)) (fun x H => H)); auto.
    intros mem c' _ Hk _; fold (pushes (map (frame mem) (varlist c'))).
    rewrite pushes_frames, length_map, <- (length_map fst), Hk.
    apply length_map.
Qed.

(** ** The check of the first run *)

Lemma rt_check_flags sched p :
  rt_strict (final (rt_check sched p)) = rt_strict p /\
  is_first_run (final (rt_check sched p))
  = is_first_run p && negb (rt_strict p).
Proof.
  unfold rt_check.
  destruct (is_first_run p) eqn:Hf, (rt_strict p) eqn:Hs; simpl;
    repeat match goal with |- context [if ?b then _ else _] => destruct b end;
    simpl; auto.
Qed.

Lemma poll_config_flags p :
  rt_strict (final (poll_config p)) = rt_strict p /\
  is_first_run (final (poll_config p)) = is_first_run p.
Proof. unfold poll_config; destruct (pushed p), (cfg p); auto. Qed.

Lemma cfg_process_flags ac mem p :
  rt_strict (final (cfg_process ac mem p)) = rt_strict p /\
  is_first_run (final (cfg_process ac mem p)) = is_first_run p.
Proof. unfold cfg_process; destruct (cfg p); auto. Qed.

Lemma ac2lsl_t_process_flags sched ac mem p :
  rt_strict (final (ac2lsl_t_process sched ac mem p)) = rt_strict p /\
  is_first_run (final (ac2lsl_t_process sched ac mem p))
  = is_first_run p && negb (rt_strict p).
Proof.
  unfold ac2lsl_t_process.
  apply and_then_keeps
    with (P := fun q => rt_strict q = rt_strict p /\
                        is_first_run q = is_first_run p && negb (rt_strict p)).
  - apply and_then_keeps
      with (P := fun q => rt_strict q = rt_strict p /\
                          is_first_run q
                          = is_first_run p && negb (rt_strict p)).
    + apply rt_check_flags.
    + intros q (H1 & H2); destruct (poll_config_flags q); split; congruence.
  - intros q (H1 & H2); destruct (activate q); [|auto].
    destruct (cfg_process_flags ac mem q); split; congruence.
Qed.

(** The exceptions of [cfg_t::process] are those of the reconciliation. *)
Lemma process_error_kinds ac mem c e :
  thrown (process ac mem c) = Some e ->
  (exists n, e = No_such_variable n) \/ (exists dt, e = Unknown_data_type dt).
Proof.
  unfold process, and_then.
  destruct (thrown (update_varlist ac c)) as [e'|] eqn:E.
  - rewrite E; intros [= <-].
    destruct (update_vars_error ac (varlist c) c e' E)
      as [(n & -> & _)|(n & v & -> & _)]; eauto.
  - cbn [thrown]; destruct (skipcnt _ =? 0); discriminate.
Qed.

(** What comes after the check throws neither of its two errors. *)
Lemma after_check_errors ac mem p e :
  thrown (poll_config p ;;
          (fun p => if activate p then cfg_process ac mem p else done p))
  = Some e ->
  e <> Realtime_thread /\ e <> Sched_params_unavailable.
Proof.
  unfold and_then.
  destruct (thrown (poll_config p)) as [e'|] eqn:E.
  - rewrite E; intros [= <-]; revert E; unfold poll_config.
    destruct (pushed p), (cfg p); simpl; try discriminate.
    intros [= <-]; split; discriminate.
  - cbn [thrown]; destruct (activate (final (poll_config p)));
      [|discriminate].
    unfold cfg_process; destruct (cfg (final (poll_config p))); simpl.
    + intros He; destruct (process_error_kinds _ _ _ _ He)
        as [(n & ->)|(dt & ->)]; split; discriminate.
    + intros [= <-]; split; discriminate.
Qed.

Lemma and_then_assoc {S} (o : outcome S) (k1 k2 : S -> outcome S) :
  o ;; k1 ;; k2 = o ;; (fun s => k1 s ;; k2).
Proof.
  destruct o as [l s [e|]]; unfold and_then; cbn [thrown final calls];
    [reflexivity|].
  destruct (k1 s) as [l1 s1 [e1|]]; cbn [thrown final calls]; [reflexivity|].
  rewrite app_assoc; reflexivity.
Qed.

(** X10.  [process] throws the real-time error exactly in a first run
    with [rt_strict] on, readable scheduling parameters and the policy
    [SCHED_FIFO] or [SCHED_RR], and the error of unreadable parameters
    exactly in a first run with [rt_strict] on and a non-zero return code;
    with [rt_strict] on, [is_first_run] is cleared before either is
    thrown, so the next call performs no check and throws neither,
    whatever its thread; with [rt_strict] off no call throws them. *)
Theorem realtime_check_runs_once (sched sched' : Z * Z)
    (ac ac' : algo_comm_t) (mem mem' : memory) (p : ac2lsl_t) :
  (thrown (ac2lsl_t_process sched ac mem p) = Some Realtime_thread <->
   is_first_run p = true /\ rt_strict p = true /\ fst sched = 0 /\
   (snd sched = SCHED_FIFO \/ snd sched = SCHED_RR)) /\
  (thrown (ac2lsl_t_process sched ac mem p) = Some Sched_params_unavailable <->
   is_first_run p = true /\ rt_strict p = true /\ fst sched <> 0) /\
  rt_strict (final (ac2lsl_t_process sched ac mem p)) = rt_strict p /\
  is_first_run (final (ac2lsl_t_process sched ac mem p))
  = is_first_run p && negb (rt_strict p) /\
  (rt_strict p = true ->
   thrown (ac2lsl_t_process sched' ac' mem'
             (final (ac2lsl_t_process sched ac mem p)))
   <> Some Realtime_thread /\
   thrown (ac2lsl_t_process sched' ac' mem'
             (final (ac2lsl_t_process sched ac mem p)))
   <> Some Sched_params_unavailable).
Proof.
  assert (Hthrown : forall s a m q,
    thrown (ac2lsl_t_process s a m q) =
    match thrown (rt_check s q) with
    | Some e => Some e
    | None =>
        thrown (poll_config (final (rt_check s q)) ;;
                (fun p => if activate p then cfg_process a m p else done p))
    end).
  { intros s a m q; unfold ac2lsl_t_process; rewrite and_then_assoc.
    unfold and_then at 1; destruct (thrown (rt_check s q)) eqn:E;
      [exact E|reflexivity]. }
  assert (Hrest : forall s a m q,
    thrown (rt_check s q) = None ->
    thrown (ac2lsl_t_process s a m q) <> Some Realtime_thread /\
    thrown (ac2lsl_t_process s a m q) <> Some Sched_params_unavailable).
  { intros s a m q Hnone; rewrite Hthrown, Hnone.
    match goal with |- ?t <> _ /\ _ => destruct t as [e|] eqn:E end;
      [|split; discriminate].
    destruct (after_check_errors _ _ _ _ E).
    split; intros [= ->]; contradiction. }
  destruct (ac2lsl_t_process_flags sched ac mem p) as (Hstrict & Hfirst).
  split; [|split; [|split; [assumption|split; [assumption|]]]].
  - pose proof (Hrest sched ac mem p) as Hr.
    rewrite Hthrown in *; rewrite rt_check_thrown in *.
    destruct (is_first_run p), (rt_strict p); cbn [andb] in *;
      try (split; [intros H; destruct (Hr eq_refl); contradiction
                  |intros (? & ? & _); discriminate]).
    destruct (Z.eqb_spec (fst sched) 0) as [E0|E0]; cbn [negb] in *.
    + destruct (Z.eqb_spec (snd sched) SCHED_FIFO),
        (Z.eqb_spec (snd sched) SCHED_RR); cbn [orb] in *;
        try (split; [auto|reflexivity]).
      split; [intros H; destruct (Hr eq_refl); contradiction|].
      intros (_ & _ & _ & [?|?]); contradiction.
    + split; [discriminate|intros (_ & _ & ? & _); contradiction].
  - pose proof (Hrest sched ac mem p) as Hr.
    rewrite Hthrown in *; rewrite rt_check_thrown in *.
    destruct (is_first_run p), (rt_strict p); cbn [andb] in *;
      try (split; [intros H; destruct (Hr eq_refl); contradiction
                  |intros (? & ? & _); discriminate]).
    destruct (Z.eqb_spec (fst sched) 0) as [E0|E0]; cbn [negb] in *.
    + destruct ((snd sched =? SCHED_FIFO) || (snd sched =? SCHED_RR)).
      * split; [discriminate|intros (_ & _ & ?); contradiction].
      * split; [intros H; destruct (Hr eq_refl); contradiction
               |intros (_ & _ & ?); contradiction].
    + split; [auto|reflexivity].
  - intros Hs; apply Hrest; rewrite rt_check_thrown, Hfirst, Hs.
    rewrite andb_false_r; reflexivity.
Qed.

(** ** [update], [prepare] and [release] *)

Lemma update_vars_kept ac p : vars (final (update ac p)) = vars p.
Proof.
  unfold update; destruct (is_prepared p); [|reflexivity].
  destruct (thrown (new_cfg_t _ _ _ _ _)); reflexivity.
Qed.

Lemma update_throws_keeps ac p e :
  thrown (update ac p) = Some e -> final (update ac p) = p.
Proof.
  unfold update; destruct (is_prepared p); [|discriminate].
  destruct (thrown (new_cfg_t _ _ _ _ _)); [reflexivity|discriminate].
Qed.

(** X11.  [update] does nothing while the plugin is not prepared.  Once
    it is prepared, [update] returns exactly when every name of [vars] is
    in the AC space with a supported type, and then publishes a new
    configuration without touching the running one; otherwise it throws
    the exception of the constructor and leaves the plugin as it was: the
    running and the published configuration stay. *)
Theorem update_publishes_or_keeps (ac : algo_comm_t) (p : ac2lsl_t) :
  (is_prepared p = false -> update ac p = done p) /\
  (is_prepared p = true ->
   (thrown (update ac p) = None <->
    forall name, In name (vars p) ->
      exists v, get_var ac name = Some v /\ supported v) /\
   (thrown (update ac p) = None ->
    exists c0,
      pushed (final (update ac p)) = Some c0 /\
      cfg (final (update ac p)) = cfg p /\
      skipcnt c0 = unsigned_cast (par_skip p) /\
      source_id c0 = par_source_id p /\
      forall key, In key (map fst (varlist c0)) <-> In key (vars p)) /\
   (forall e, thrown (update ac p) = Some e ->
      final (update ac p) = p /\
      thrown (new_cfg_t ac (unsigned_cast (par_skip p)) (par_source_id p)
                (vars p) (stream_rate (input_cfg p) (par_skip p))) = Some e)).
Proof.
  unfold update; split; [intros ->; reflexivity|].
  intros ->.
  set (o := new_cfg_t ac (unsigned_cast (par_skip p)) (par_source_id p)
              (vars p) (stream_rate (input_cfg p) (par_skip p))).
  pose proof (resolve_vars_ok_iff ac (vars p)
                {| varlist := []; skipcnt := unsigned_cast (par_skip p);
                   skip := unsigned_cast (par_skip p);
                   srate := stream_rate (input_cfg p) (par_skip p);
                   source_id := par_source_id p |}) as Hiff.
  fold (new_cfg_t ac (unsigned_cast (par_skip p)) (par_source_id p) (vars p)
          (stream_rate (input_cfg p) (par_skip p))) in Hiff; fold o in Hiff.
  destruct (thrown o) as [e|] eqn:Ho; cbn [thrown final].
  - split; [rewrite <- Hiff; split; discriminate|].
    split; [discriminate|].
    intros e' [= <-]; split; reflexivity.
  - split; [rewrite <- Hiff; split; reflexivity|].
    split; [|discriminate].
    intros _; exists (final o); split; [reflexivity|].
    split; [reflexivity|].
    split; [apply throttle_skip_start|].
    split.
    + unfold o, new_cfg_t.
      match goal with |- context [resolve_vars ac (vars p) ?c0] =>
        destruct (new_cfg_t_settings ac (vars p) c0) as (_ & _ & _ & Hs) end.
      exact Hs.
    + intros key; split.
      * intros Hin; unfold o, new_cfg_t in Hin.
        destruct (resolve_vars_keys _ _ _ key Hin) as [[]|H]; exact H.
      * intros Hin; apply resolve_vars_all; assumption.
Qed.

(** X12.  [release] arms the check of the first run again and releases
    both locks, and keeps the configuration variables and the runtime
    configurations: with [rt_strict] on, the first [process] after a
    [release] in a thread of policy [SCHED_FIFO] or [SCHED_RR] throws the
    real-time error, also when the check had already run. *)
Theorem release_rearms_check (sched : Z * Z) (ac : algo_comm_t)
    (mem : memory) (p : ac2lsl_t) (l : parser_locks)
    (Hstrict : rt_strict p = true)
    (Hret : fst sched = 0)
    (Hpolicy : snd sched = SCHED_FIFO \/ snd sched = SCHED_RR) :
  thrown (ac2lsl_t_process sched ac mem (fst (release (p, l))))
  = Some Realtime_thread /\
  calls (ac2lsl_t_process sched ac mem (fst (release (p, l)))) = [] /\
  snd (release (p, l)) = {| vars_lock := false; rt_strict_lock := false |} /\
  vars (fst (release (p, l))) = vars p /\
  cfg (fst (release (p, l))) = cfg p /\
  pushed (fst (release (p, l))) = pushed p.
Proof.
  assert (Hcheck : thrown (rt_check sched (fst (release (p, l))))
                   = Some Realtime_thread).
  { rewrite rt_check_thrown; cbn [release fst set_is_first_run is_first_run
                                   rt_strict].
    rewrite Hstrict, Hret; cbn [andb Z.eqb negb].
    destruct Hpolicy as [->| ->]; rewrite Z.eqb_refl, ?orb_true_r;
      reflexivity. }
  unfold ac2lsl_t_process.
  rewrite (and_then_thrown _ poll_config _ Hcheck).
  rewrite (and_then_thrown _ _ _ Hcheck), Hcheck, rt_check_calls.
  repeat split.
Qed.

Lemma prepare_terminates fuel ac :
  (12 <= fuel)%nat ->
  exists lens r, get_all_names_from_ac_space fuel ac = Some (lens, r).
Proof.
  intros Hfuel.
  destruct (get_entries_loop_spec ac fuel 0 ltac:(lia) ltac:(lia))
    as (lens & r & Hloop & _).
  change (512 * 2 ^ Z.of_nat 0) with 512 in Hloop.
  unfold get_all_names_from_ac_space; rewrite Hloop.
  destruct r as [r|e]; [destruct (fst r =? -1)|]; eauto.
Qed.

Lemma prepare_update_spec ac p :
  (thrown (prepare_update ac p) = None ->
   snd (final (prepare_update ac p))
   = {| vars_lock := true; rt_strict_lock := true |}) /\
  (forall e, thrown (prepare_update ac p) = Some e ->
   snd (final (prepare_update ac p))
   = {| vars_lock := false; rt_strict_lock := false |} /\
   fst (final (prepare_update ac p)) = p) /\
  vars (fst (final (prepare_update ac p))) = vars p.
Proof.
  unfold prepare_update; cbn [thrown final fst snd].
  split; [intros ->; reflexivity|].
  split; [|apply update_vars_kept].
  intros e He; rewrite He; split; [reflexivity|].
  exact (update_throws_keeps ac p e He).
Qed.

(** X13.  [prepare] returns with both locks taken or throws with both
    locks released and without a new configuration.  A non-empty [vars]
    is left as it is and the AC space is not enumerated; an empty [vars]
    is replaced by the names that the enumeration returns, also when
    [update] then throws, and an exception of the enumeration ends
    [prepare] before any stream is built. *)
Theorem prepare_locks_and_names (fuel : nat) (ac : algo_comm_t)
    (p : ac2lsl_t) (Hfuel : (12 <= fuel)%nat) :
  exists o,
    prepare fuel ac p = Some o /\
    (thrown o = None ->
     snd (final o) = {| vars_lock := true; rt_strict_lock := true |}) /\
    (forall e, thrown o = Some e ->
     snd (final o) = {| vars_lock := false; rt_strict_lock := false |} /\
     cfg (fst (final o)) = cfg p /\ pushed (fst (final o)) = pushed p) /\
    (vars p <> [] ->
     o = prepare_update ac p /\ vars (fst (final o)) = vars p) /\
    (vars p = [] ->
     forall lens r,
       get_all_names_from_ac_space fuel ac = Some (lens, r) ->
       match r with
       | Returns names =>
           o = prepare_update ac (set_vars p names) /\
           vars (fst (final o)) = names
       | Throws e =>
           thrown o = Some e /\ calls o = [] /\ fst (final o) = p
       end).
Proof.
  unfold prepare; destruct (vars p) as [|name rest] eqn:Hvars.
  - destruct (prepare_terminates fuel ac Hfuel) as (lens & r & Henum).
    rewrite Henum; destruct r as [names|e].
    + exists (prepare_update ac (set_vars p names)); split; [reflexivity|].
      destruct (prepare_update_spec ac (set_vars p names))
        as (Hlocked & Hunlocked & Hkept).
      split; [assumption|]; split; [|split; [intros H; congruence|]].
      * intros e He; destruct (Hunlocked e He) as (Hl & Hp).
        rewrite Hp; repeat split; assumption.
      * intros _ lens' r' [= <- <-]; split; [reflexivity|exact Hkept].
    + eexists; split; [reflexivity|]; cbn [thrown final calls fst snd].
      split; [discriminate|]; split; [intros ? _; repeat split|].
      split; [intros H; congruence|].
      intros _ lens' r' [= <- <-]; repeat split.
  - exists (prepare_update ac p); split; [reflexivity|].
    destruct (prepare_update_spec ac p) as (Hlocked & Hunlocked & Hkept).
    split; [assumption|]; split; [|split; [|intros H; congruence]].
    + intros e He; destruct (Hunlocked e He) as (Hl & Hp).
      rewrite Hp; repeat split; assumption.
    + intros _; split; [reflexivity|congruence].
Qed.

(** ** More on the enumeration *)

(** X14.  When the first call of [get_entries], with a buffer of 1024
    characters, returns any code but -3, the enumeration ends after this
    one call: with the invalid-handle error for the code -1, and for every
    other code, an error code or not, with the tokens of what the buffer
    holds. *)
Theorem enumeration_first_answer (ac : algo_comm_t) (fuel : nat)
    (Hfuel : (1 <= fuel)%nat)
    (Hcode : fst (get_entries ac 1024) <> -3) :
  get_all_names_from_ac_space fuel ac =
  Some ([1024],
        if fst (get_entries ac 1024) =? -1 then Throws AC_handle_invalid
        else Returns
               (str2val ("[" ++ snd (get_entries ac 1024) ++ "]")%string)).
Proof.
  destruct fuel as [|fuel]; [lia|].
  unfold get_all_names_from_ac_space; cbn [get_entries_loop].
  change (unsigned_cast (Z.shiftl 512 1)) with 1024.
  change (1048576 <? 1024) with false; cbn iota.
  destruct (Z.eqb_spec (fst (get_entries ac 1024)) (-3)); [contradiction|].
  destruct (fst (get_entries ac 1024) =? -1); reflexivity.
Qed.

Lemma get_entries_loop_bound ac need :
  needs_buffer ac need ->
  forall fuel cstr_len lens r,
    0 <= cstr_len < 2147483648 -> cstr_len < need ->
    get_entries_loop fuel ac cstr_len = Some (lens, r) ->
    Forall (fun len => len <= 1048576 /\ len < 2 * need) lens.
Proof.
  intros Hneed; induction fuel as [|fuel IH];
    intros cstr_len lens r Hrange Hlt; [discriminate|].
  cbn [get_entries_loop].
  assert (Hdouble : unsigned_cast (Z.shiftl cstr_len 1) = 2 * cstr_len).
  { rewrite Z.shiftl_mul_pow2 by lia; unfold unsigned_cast.
    rewrite Z.mod_small; lia. }
  rewrite Hdouble; clear Hdouble.
  remember (2 * cstr_len) as d eqn:Hd.
  destruct (Z.ltb_spec 1048576 d) as [Hbig|Hsmall].
  - intros [= <- _]; constructor.
  - destruct (Z.eqb_spec (fst (get_entries ac d)) (-3)) as [Hshort|Hdone].
    + destruct (get_entries_loop fuel ac d) as [[lens' r']|] eqn:Hloop;
        [|discriminate].
      intros [= <- _]; constructor; [lia|].
      apply (IH d lens' r'); [lia| |assumption].
      destruct (Hneed d) as (_ & Hfit).
      destruct (Z.lt_ge_cases d need); [assumption|].
      rewrite Hfit in Hshort by assumption; discriminate.
    + intros [= <- _]; constructor; [lia|constructor].
Qed.

(** X15.  For an AC space whose list needs a buffer of [need]
    characters, no buffer of the enumeration is longer than 1 MiB, and
    none but the first, of 1024 characters, is as long as twice what is
    needed. *)
Theorem enumeration_buffer_bound (ac : algo_comm_t) (need : Z) (fuel : nat)
    (lens : list Z) (r : result (list string))
    (Hneed : needs_buffer ac need)
    (Hrun : get_all_names_from_ac_space fuel ac = Some (lens, r)) :
  forall len, In len lens ->
    len <= 1048576 /\ (len = 1024 \/ len < 2 * need).
Proof.
  assert (Hloop : exists r', get_entries_loop fuel ac 512 = Some (lens, r')).
  { revert Hrun; unfold get_all_names_from_ac_space.
    destruct (get_entries_loop fuel ac 512) as [[lens' [r'|e]]|];
      [destruct (fst r' =? -1)| |discriminate]; intros [= <- _]; eauto. }
  destruct Hloop as (r' & Hloop).
  destruct (Z.lt_ge_cases 512 need) as [Hlt|Hge].
  - pose proof (get_entries_loop_bound ac need Hneed fuel 512 lens r'
                  ltac:(lia) Hlt Hloop) as Hall.
    intros len Hin; destruct (proj1 (Forall_forall _ _) Hall len Hin).
    split; [assumption|right; assumption].
  - destruct fuel as [|fuel]; [discriminate|].
    revert Hloop; cbn [get_entries_loop].
    change (unsigned_cast (Z.shiftl 512 1)) with 1024.
    change (1048576 <? 1024) with false; cbn iota.
    destruct (Hneed 1024) as (_ & Hfit); rewrite Hfit by lia.
    change (0 =? -3) with false; cbn iota.
    intros [= <- _] len [<-|[]]; split; [lia|left; reflexivity].
Qed.

(** ** Frames of the variables the factory built *)

Lemma read_sample_length mem p count :
  List.length (read_sample mem p count) = Z.to_nat count.
Proof. unfold read_sample; rewrite length_map, length_seq; reflexivity. Qed.

Lemma read_sample_local mem mem' p count :
  (forall i, 0 <= i < count -> mem' (p + i) = mem (p + i)) ->
  read_sample mem' p count = read_sample mem p count.
Proof.
  intros Hsame; unfold read_sample; apply map_ext_in.
  intros i Hi; apply in_seq in Hi; apply Hsame; lia.
Qed.

(** X16.  The bridge variable that the factory builds for a descriptor
    of [n < 2^30] entries pushes one sample per frame: the [n] scalars
    ([2 n] for the complex type) that lie at the address of the
    descriptor; its frame depends on no other cell of the memory. *)
Theorem built_variable_frame (c : cfg_t) (name : string) (v : comm_var_t)
    (a : save_var_base_t) (mem : memory)
    (Hmake : make_var c name v = Some a)
    (Hn : 0 <= num_entries v < 1073741824) :
  channel_count (info a) =
    (if data_type v =? MHA_AC_MHACOMPLEX then 2 * num_entries v
     else num_entries v) /\
  send_frame a mem =
    [Push_sample (info a)
       (read_sample mem (data v) (channel_count (info a)))] /\
  List.length (read_sample mem (data v) (channel_count (info a)))
  = Z.to_nat (channel_count (info a)) /\
  (forall mem',
     (forall i, 0 <= i < channel_count (info a) ->
                mem' (data v + i) = mem (data v + i)) ->
     send_frame a mem' = send_frame a mem).
Proof.
  assert (Hshape :
    get_buf_address a = data v /\
    channel_count (info a) =
      (if data_type v =? MHA_AC_MHACOMPLEX then 2 * num_entries v
       else num_entries v)).
  { destruct (Z.eqb_spec (data_type v) MHA_AC_MHACOMPLEX) as [E|E].
    - rewrite (make_var_complex c name v E) in Hmake.
      assert (Ha : a = save_var_complex_t
                (lsl_stream_info name "MHA_AC_COMPLEX"
                   (unsigned_cast (2 * num_entries v)) (srate c) cf_float32
                   (source_id c)) (data v)) by congruence.
      rewrite Ha; cbn [get_buf_address info channel_count lsl_stream_info].
      rewrite unsigned_cast_small, int32_cast_small by lia; auto.
    - assert (Hs : In (data_type v)
                [MHA_AC_INT; MHA_AC_FLOAT; MHA_AC_DOUBLE; MHA_AC_MHAREAL]).
      { assert (Hsup : supported v)
          by (apply (supported_make_var c name v); congruence).
        unfold supported in Hsup; simpl in Hsup |- *; intuition congruence. }
      destruct (make_var_scalar c name v Hs) as (T & type & fmt & Hm).
      assert (Ha : a = save_var_t T
                (lsl_stream_info name type (num_entries v) (srate c) fmt
                   (source_id c)) (data v) (data_type v)) by congruence.
      rewrite Ha; cbn [get_buf_address info channel_count lsl_stream_info].
      rewrite int32_cast_small by lia; auto. }
  destruct Hshape as (Hbuf & Hcount).
  assert (Hframe : forall m,
    send_frame a m =
    [Push_sample (info a) (read_sample m (data v) (channel_count (info a)))]).
  { intros m; rewrite <- Hbuf.
    pose proof (send_frame_frame m (name, a)) as H.
    cbn [snd] in H; rewrite H; reflexivity. }
  split; [assumption|]; split; [apply Hframe|].
  split; [apply read_sample_length|].
  intros mem' Hsame; rewrite !Hframe.
  rewrite (read_sample_local mem mem' _ _ Hsame); reflexivity.
Qed.

(** X17.  A cycle that throws is the reconciliation alone: nothing is
    pushed, the skip counter is not advanced, and the map keeps its
    keys. *)
Theorem failed_cycle_keeps_throttle (ac : algo_comm_t) (mem : memory)
    (c : cfg_t) (e : MHA_Error)
    (Hsorted : sorted (varlist c))
    (Hthrown : thrown (process ac mem c) = Some e) :
  process ac mem c = update_varlist ac c /\
  pushes (calls (process ac mem c)) = [] /\
  skipcnt (final (process ac mem c)) = skipcnt c /\
  skip (final (process ac mem c)) = skip c /\
  map fst (varlist (final (process ac mem c))) = map fst (varlist c).
Proof.
  assert (Hrec : thrown (update_varlist ac c) = Some e).
  { revert Hthrown; unfold process, and_then.
    destruct (thrown (update_varlist ac c)) eqn:E; [rewrite E; auto|].
    cbn [thrown]; destruct (skipcnt _ =? 0); discriminate. }
  rewrite (process_throws ac mem c e Hrec).
  destruct (update_varlist_settings ac c) as (H1 & H2 & _).
  destruct (update_varlist_same_map ac c Hsorted) as (_ & Hk).
  repeat split; try assumption.
  apply pushes_none, update_vars_no_push.
Qed.

End Further.

(** * The properties on the code's inputs *)

Section Examples.
#[local] Existing Instance openMHA.
#[local] Open Scope string_scope.

(** C1.  The bridge variable of the complex variable [spec] (three
    entries, six channels) when the variable moves from address 100 to 200:
    reconciliation calls neither [set_buf_address] nor
    [make_or_replace_var], and the bridge variable still points to 100. *)
Theorem complex_address_change_missed :
  get_var (spec_ac 3 200) "spec" =
    Some {| data_type := MHA_AC_MHACOMPLEX; num_entries := 3; data := 200 |} /\
  update_varlist (spec_ac 3 200) spec_cfg =
    {| calls := [Get_var "spec"]; final := spec_cfg; thrown := None |} /\
  count_set_buf_address "spec"
    (calls (update_varlist (spec_ac 3 200) spec_cfg)) = 0%nat /\
  count_rebuilds "spec"
    (calls (update_varlist (spec_ac 3 200) spec_cfg)) = 0%nat /\
  option_map get_buf_address (map_find "spec" (varlist spec_cfg)) = Some 100.
Proof. repeat split. Qed.

(** C7.  The bridge variable of [spec] (six channels) when the variable
    has become six complex numbers at address 200: the first pass only
    repoints it, since its channel count equals the new number of entries;
    the second pass, over the same AC space, rebuilds it with twelve
    channels. *)
Theorem second_pass_rebuilds :
  calls (update_varlist (spec_ac 6 200) spec_cfg) =
    [Get_var "spec"; Set_buf_address "spec" 200] /\
  calls (update_varlist (spec_ac 6 200)
           (final (update_varlist (spec_ac 6 200) spec_cfg))) =
    [Get_var "spec";
     Make_or_replace_var "spec"
       {| data_type := MHA_AC_MHACOMPLEX; num_entries := 6; data := 200 |}] /\
  count_rebuilds "spec"
    (calls (update_varlist (spec_ac 6 200)
              (final (update_varlist (spec_ac 6 200) spec_cfg)))) = 1%nat /\
  option_map (fun a => channel_count (info a))
    (map_find "spec"
       (varlist (final (update_varlist (spec_ac 6 200) spec_cfg)))) = Some 6 /\
  option_map (fun a => channel_count (info a))
    (map_find "spec"
       (varlist (final (update_varlist (spec_ac 6 200)
                          (final (update_varlist (spec_ac 6 200) spec_cfg))))))
    = Some 12.
Proof. repeat split. Qed.

(** C2: with the skip interval 1 the first cycle pushes nothing although
    the map holds [level]; the cycles push 0, 1, 0, 1 samples. *)
Lemma first_cycle_skips :
  map fst (varlist (level_cfg 1)) = ["level"] /\
  pushes (calls (process level_ac level_mem (level_cfg 1))) = [] /\
  map (fun o => List.length (pushes (calls o))) (run level_cycles (level_cfg 1))
    = [0; 1; 0; 1]%nat.
Proof. repeat split. Qed.

Lemma throttle_send_cycles_witness :
  0 <= 1 < 4294967296 /\
  exists o,
    nth_error (run level_cycles (level_cfg 1)) 1 = Some o /\
    nth_error level_cycles 1 = Some (level_ac, level_mem) /\
    thrown o = None /\
    pushes (calls o) = map (frame level_mem) (varlist (final o)).
Proof.
  split; [lia|].
  eexists; split; [reflexivity|]; split; [reflexivity|];
    split; [reflexivity|].
  apply (throttle_send_cycles level_ac 1 EmptyString ["level"]
           (stream_rate pipeline 1) level_cycles 1 _ level_ac level_mem);
    [lia|reflexivity|reflexivity|reflexivity].
Defined.

(** C3: the first call of [process] in a thread of policy [SCHED_FIFO]
    throws although [activate] is off. *)
Lemma inactive_process_throws :
  activate (prepared_plugin 0 false) = false /\
  thrown (ac2lsl_t_process (0, SCHED_FIFO) level_ac level_mem
            (prepared_plugin 0 false)) = Some Realtime_thread.
Proof. split; reflexivity. Qed.

Lemma inactive_process_witness :
  activate (prepared_plugin 0 false) = false /\
  calls (ac2lsl_t_process (0, 0) level_ac level_mem (prepared_plugin 0 false))
    = [] /\
  thrown (ac2lsl_t_process (0, 0) level_ac level_mem (prepared_plugin 0 false))
    = None.
Proof.
  split; [reflexivity|].
  destruct (inactive_process (0, 0) level_ac level_mem
              (prepared_plugin 0 false) eq_refl) as (_ & Hcalls & _ & Hthrown).
  split; [exact Hcalls|exact Hthrown].
Defined.

(** C4: for a complex variable of 2^31 entries the channel count is 0. *)
Lemma factory_channel_count_wraps :
  option_map (fun a => channel_count (info a))
    (map_find "spec"
       (varlist
          (final
             (make_or_replace_var "spec"
                {| data_type := MHA_AC_MHACOMPLEX;
                   num_entries := 2147483648; data := 100 |} spec_cfg))))
    = Some 0 /\
  2 * 2147483648 = 4294967296.
Proof. split; reflexivity. Qed.

Lemma factory_channel_count_witness :
  0 <= 3 < 4294967296 /\
  exists a,
    map_find "spec"
      (varlist
         (final
            (make_or_replace_var "spec"
               {| data_type := MHA_AC_MHACOMPLEX; num_entries := 3;
                  data := 100 |} spec_cfg))) = Some a /\
    channel_count (info a) = 6.
Proof.
  split; [lia|].
  destruct (factory_channel_count "spec"
              {| data_type := MHA_AC_MHACOMPLEX; num_entries := 3;
                 data := 100 |} spec_cfg ltac:(simpl; lia))
    as (_ & Hcomplex & _).
  destruct (Hcomplex eq_refl) as (a & _ & Hfind & _ & Hcount).
  exists a; split; [exact Hfind|].
  apply Hcount; simpl; lia.
Defined.

Lemma spec_values_at_100 : holds_complex spec_mem 100 spec_values.
Proof.
  intros [|[|[|i]]] z Hi; try (destruct i; discriminate);
    injection Hi as <-; split; reflexivity.
Defined.

(** C5 on the variable [spec]: three complex numbers, one sample of six
    scalars. *)
Lemma send_frame_complex_interleaved_witness :
  exists stream,
    varlist spec_cfg = [("spec", save_var_complex_t stream 100)] /\
    channel_count stream = 2 * Z.of_nat (List.length spec_values) /\
    holds_complex spec_mem 100 spec_values /\
    send_frame (save_var_complex_t stream 100) spec_mem =
      [Push_sample stream
         (map (fun z => float_val (float_of_Z z)) [1; 2; 3; 4; 5; 6])].
Proof.
  eexists; split; [reflexivity|]; split; [reflexivity|].
  split; [exact spec_values_at_100|].
  match goal with
  | |- send_frame (save_var_complex_t ?s _) _ = _ =>
      apply (proj1 (send_frame_complex_interleaved s 100 spec_mem spec_values
                      eq_refl spec_values_at_100))
  end.
Defined.

(** C6 on a cycle that skips. *)
Lemma throttle_state_machine_witness :
  0 <= skipcnt (level_cfg 1) < 4294967296 /\
  calls (process level_ac level_mem (level_cfg 1)) =
    calls (update_varlist level_ac (level_cfg 1)) /\
  skipcnt (final (process level_ac level_mem (level_cfg 1))) = 0.
Proof.
  split; [simpl; lia|].
  destruct (throttle_state_machine level_ac level_mem (level_cfg 1)
              ltac:(simpl; lia)) as (_ & _ & Hcycle).
  destruct (Hcycle eq_refl) as (_ & _ & _ & _ & Hskip).
  exact Hskip.
Defined.

(** C8: [b] is absent, but the error is the unknown type of [a]. *)
Lemma missing_variable_other_error :
  In "b" (map fst (varlist ab_cfg)) /\
  get_var a_retyped_ac "b" = None /\
  thrown (update_varlist a_retyped_ac ab_cfg) = Some (Unknown_data_type 1) /\
  thrown (process a_retyped_ac level_mem ab_cfg) = Some (Unknown_data_type 1).
Proof. repeat split; simpl; auto. Qed.

Lemma missing_variable_is_fatal_witness :
  In "b" (map fst (varlist ab_cfg)) /\
  get_var a_only_ac "b" = None /\
  (exists e, thrown (process a_only_ac level_mem ab_cfg) = Some e) /\
  In "b" (map fst (varlist (final (process a_only_ac level_mem ab_cfg)))).
Proof.
  assert (Hin : In "b" (map fst (varlist ab_cfg))) by (simpl; auto).
  split; [exact Hin|]; split; [reflexivity|].
  destruct (missing_variable_is_fatal a_only_ac level_mem ab_cfg "b" Hin
              eq_refl) as ((e & _ & He & _) & _ & Hkept).
  split; [exists e; exact He|exact Hkept].
Defined.

(** C9 on an AC space that needs 300 KiB. *)
Lemma large_ac_space_needs : needs_buffer large_ac_space 307200.
Proof.
  intros len; unfold large_ac_space; cbn [get_entries].
  destruct (Z.ltb_spec len 307200); split; intros; try reflexivity; lia.
Defined.

Lemma enumeration_terminates_witness :
  (12 <= 12)%nat /\
  needs_buffer large_ac_space 307200 /\
  exists front len,
    get_all_names_from_ac_space 12 large_ac_space =
      Some ((front ++ [len])%list, Returns ["level"; "spec"]) /\
    front = [1024; 2048; 4096; 8192; 16384; 32768; 65536; 131072; 262144] /\
    len = 524288 /\
    (forall l, In l front -> l < 307200) /\
    307200 <= len.
Proof.
  split; [lia|]; split; [exact large_ac_space_needs|].
  destruct (enumeration_terminates large_ac_space 12 (le_n 12))
    as (lens & r & Hrun & _ & _ & _ & Hcontract).
  destruct (Hcontract 307200 large_ac_space_needs) as (Hfit & _).
  destruct (Hfit ltac:(lia)) as (front & len & -> & Hfront & Hlen & ->).
  change (get_all_names_from_ac_space 12 large_ac_space)
    with (Some (([1024; 2048; 4096; 8192; 16384; 32768; 65536; 131072;
                  262144] ++ [524288])%list, Returns ["level"; "spec"]))
    in Hrun.
  injection Hrun as Hlens Hnames.
  apply (app_inj_tail
           [1024; 2048; 4096; 8192; 16384; 32768; 65536; 131072; 262144]
           front 524288 len) in Hlens.
  destruct Hlens as (<- & <-).
  exists [1024; 2048; 4096; 8192; 16384; 32768; 65536; 131072; 262144],
    524288.
  split; [reflexivity|].
  split; [reflexivity|]; split; [reflexivity|].
  split; [exact Hfront|exact Hlen].
Defined.

(** The enumerations of 300 KiB and of 2 MiB. *)
Lemma enumeration_examples :
  get_all_names_from_ac_space 12 large_ac_space =
    Some ([1024; 2048; 4096; 8192; 16384; 32768; 65536; 131072; 262144;
           524288], Returns ["level"; "spec"]) /\
  get_all_names_from_ac_space 12 huge_ac_space =
    Some ([1024; 2048; 4096; 8192; 16384; 32768; 65536; 131072; 262144;
           524288; 1048576], Throws AC_list_too_long).
Proof. split; reflexivity. Qed.

(** C10: the skip intervals 16777215 and 16777216 give the same rate,
    since [16777216 + 1.0f] is [16777216.0f]. *)
Lemma same_rate_for_two_skips :
  float_add (float_of_Z 16777215) (float_of_Z 1) =
    float_add (float_of_Z 16777216) (float_of_Z 1) /\
  published_rate (prepared_plugin 16777215 true) "level" =
    Some (stream_rate pipeline 16777215) /\
  published_rate (prepared_plugin 16777216 true) "level" =
    Some (stream_rate pipeline 16777215).
Proof. repeat split. Qed.

Lemma declared_rate_of_epoch_witness :
  is_prepared (plugin 1 true) = true /\
  thrown (update level_ac (plugin 1 true)) = None /\
  exists c0,
    pushed (final (update level_ac (plugin 1 true))) = Some c0 /\
    forall var, In var (varlist c0) ->
      nominal_srate (info (snd var)) =
      float_div (float_div (float_of_Z 44100) (float_of_Z 64))
        (float_add (float_of_Z 1) (float_of_Z 1)).
Proof.
  split; [reflexivity|]; split; [reflexivity|].
  destruct (declared_rate_of_epoch level_ac (plugin 1 true) eq_refl eq_refl)
    as (c0 & Hpushed & _ & _ & _ & Hrate).
  exists c0; split; [exact Hpushed|].
  intros var Hvar; exact (Hrate c0 var (epoch_start c0) Hvar).
Defined.

End Examples.

(** * The further properties on the code's inputs *)

Section FurtherExamples.
#[local] Existing Instance openMHA.
#[local] Open Scope string_scope.

Lemma level_cfg_sorted : sorted (varlist (level_cfg 0)).
Proof. repeat constructor. Defined.

(** X1: [level] has become a complex variable of four entries. *)
Lemma type_change_rebuilds_once_witness :
  get_var (level_at level_complex) "level" = Some level_complex /\
  count_rebuilds "level"
    (calls (update_varlist (level_at level_complex) (level_cfg 0)))
  = 1%nat /\
  exists a',
    map_find "level"
      (varlist (final (update_varlist (level_at level_complex)
                         (level_cfg 0)))) = Some a' /\
    channel_count (info a') = 8.
Proof.
  split; [reflexivity|].
  destruct (type_change_rebuilds_once (X := openMHA) (level_at level_complex)
              (level_cfg 0) "level" level_var
              level_complex
              level_cfg_sorted ltac:(reflexivity) ltac:(left; reflexivity) ltac:(reflexivity)
              ltac:(vm_compute; repeat split; first [discriminate|reflexivity]) ltac:(vm_compute; discriminate))
    as (Hcount & _ & a' & _ & Hfind & _ & Hchannels).
  split; [exact Hcount|]; exists a'; split; [exact Hfind|].
  apply Hchannels; [reflexivity|simpl; lia].
Defined.

(** X2: [level] has grown to eight floats. *)
Lemma shape_change_rebuilds_once_witness :
  count_rebuilds "level"
    (calls (update_varlist (level_at level_grown) (level_cfg 0)))
  = 1%nat /\
  exists a',
    map_find "level"
      (varlist (final (update_varlist (level_at level_grown)
                         (level_cfg 0)))) = Some a' /\
    in_sync a' level_grown.
Proof.
  destruct (shape_change_rebuilds_once (X := openMHA) (level_at level_grown)
              (level_cfg 0) "level" level_var
              level_grown
              level_cfg_sorted ltac:(reflexivity) ltac:(left; reflexivity) ltac:(reflexivity)
              ltac:(vm_compute; repeat split; first [discriminate|reflexivity]) ltac:(reflexivity) ltac:(vm_compute; discriminate)
              ltac:(left; vm_compute; discriminate))
    as (Hcount & _ & a' & _ & Hfind & Hsync).
  split; [exact Hcount|]; exists a'; split; [exact Hfind|exact Hsync].
Defined.

(** X3: [level] has moved to the address 2000. *)
Lemma address_change_keeps_stream_witness :
  count_set_buf_address "level"
    (calls (update_varlist (level_at level_moved) (level_cfg 0)))
  = 1%nat /\
  count_rebuilds "level"
    (calls (update_varlist (level_at level_moved) (level_cfg 0)))
  = 0%nat /\
  map_find "level"
    (varlist (final (update_varlist (level_at level_moved)
                       (level_cfg 0))))
  = Some (set_buf_address level_var 2000).
Proof.
  destruct (address_change_keeps_stream (X := openMHA) (level_at level_moved)
              (level_cfg 0) "level" level_var
              level_moved
              level_cfg_sorted ltac:(reflexivity) ltac:(left; reflexivity) ltac:(reflexivity)
              ltac:(vm_compute; discriminate) ltac:(reflexivity) ltac:(reflexivity))
    as (Hset & Hrebuilds & a' & Hfind & -> & _).
  split; [exact Hset|]; split; [exact Hrebuilds|exact Hfind].
Defined.

Lemma ab_cfg_sorted : sorted (varlist ab_cfg).
Proof. repeat constructor. Defined.

(** X4: [a] has become a variable of the type id 1. *)
Lemma unsupported_type_change_throws_witness :
  ~ supported a_retyped /\
  (exists e, thrown (process a_retyped_ac level_mem ab_cfg) = Some e) /\
  map_find "a" (varlist (final (process a_retyped_ac level_mem ab_cfg)))
  = Some a_var.
Proof.
  assert (Hsup : ~ supported a_retyped).
  { unfold supported; simpl; intros [H|[H|[H|[H|[H|[]]]]]]; discriminate H. }
  split; [exact Hsup|].
  destruct (unsupported_type_change_throws (X := openMHA) a_retyped_ac level_mem ab_cfg "a"
              a_var a_retyped
              ab_cfg_sorted ltac:(left; reflexivity) ltac:(reflexivity)
              ltac:(vm_compute; discriminate) Hsup)
    as ((e & _ & He & _) & _ & Hkept & _).
  split; [exists e; exact He|exact Hkept].
Defined.

(** X5: after [level] moved to 2000, a second pass is idle. *)
Lemma second_pass_is_idle_witness :
  thrown (update_varlist (level_at level_moved) (level_cfg 0)) = None /\
  calls (update_varlist (level_at level_moved)
           (final (update_varlist (level_at level_moved)
                     (level_cfg 0))))
  = [Get_var "level"].
Proof.
  split; [reflexivity|].
  rewrite (second_pass_is_idle (X := openMHA) (level_at level_moved) (level_cfg 0)
             level_cfg_sorted ltac:(reflexivity)).
  - reflexivity.
  - intros name v [<-|[]] [= <-]; split; [vm_compute; discriminate|simpl; lia].
Defined.

Lemma ab_ac_range name v :
  get_var ab_ac name = Some v -> 0 <= num_entries v < 4294967296.
Proof.
  unfold ab_ac, ac_space; cbn [get_var ac_lookup].
  destruct (name =? "a"); [intros [= <-]; simpl; lia|].
  destruct (name =? "b"); [intros [= <-]; simpl; lia|discriminate].
Defined.

(** X7: the names [a], [b], [a]. *)
Lemma constructor_builds_every_name_witness :
  thrown (new_cfg_t ab_ac 0 "" ["a"; "b"; "a"] (stream_rate pipeline 0))
  = None /\
  count_rebuilds "a"
    (calls (new_cfg_t ab_ac 0 "" ["a"; "b"; "a"] (stream_rate pipeline 0)))
  = 2%nat /\
  calls (update_varlist ab_ac
           (final (new_cfg_t ab_ac 0 "" ["a"; "b"; "a"]
                     (stream_rate pipeline 0))))
  = [Get_var "a"; Get_var "b"].
Proof.
  split; [reflexivity|].
  destruct (constructor_builds_every_name (X := openMHA) ab_ac 0 "" ["a"; "b"; "a"]
              (stream_rate pipeline 0) ltac:(reflexivity) ab_ac_range)
    as (_ & _ & _ & Hcount & Hidle).
  split; [exact (Hcount "a")|].
  rewrite Hidle; reflexivity.
Defined.

(** X8: the configuration after the first cycle of [level_cfg 1]. *)
Lemma epoch_keeps_registry_witness :
  epoch (level_cfg 1) (final (process level_ac level_mem (level_cfg 1))) /\
  map fst (varlist (final (process level_ac level_mem (level_cfg 1))))
  = ["level"] /\
  forall var,
    In var (varlist (final (process level_ac level_mem (level_cfg 1)))) ->
    info_name (info (snd var)) = fst var.
Proof.
  assert (Hepoch :
    epoch (level_cfg 1) (final (process level_ac level_mem (level_cfg 1))))
    by (apply epoch_cycle, epoch_start).
  split; [exact Hepoch|].
  destruct (epoch_keeps_registry (X := openMHA) level_ac 1 "" ["level"]
              (stream_rate pipeline 1) _ Hepoch)
    as (_ & Hkeys & _ & _ & Hstreams).
  split; [exact Hkeys|].
  intros var Hvar; exact (proj1 (Hstreams var Hvar)).
Defined.

(** X9: four cycles of [a] and [b] with the skip interval 1 push two
    samples to each of the two streams. *)
Lemma throttle_sample_count_witness :
  Forall (fun o => thrown o = None) (run ab_cycles (ab_cfg_skip 1)) /\
  well_formed (ab_cfg_skip 1) /\
  Z.of_nat (pushed_samples_to "a" (run ab_cycles (ab_cfg_skip 1))) = 2 /\
  Z.of_nat (pushed_samples_to "b" (run ab_cycles (ab_cfg_skip 1))) = 2 /\
  pushed_samples_to "level" (run ab_cycles (ab_cfg_skip 1)) = 0%nat /\
  Z.of_nat (pushed_samples (run ab_cycles (ab_cfg_skip 1))) = 4.
Proof.
  assert (Hok : Forall (fun o : outcome cfg_t => thrown o = None)
                  (run ab_cycles (ab_cfg_skip 1)))
    by (repeat constructor).
  assert (Hnamed : well_formed (ab_cfg_skip 1)).
  { intros var [<-|[<-|[]]]; repeat split. }
  split; [exact Hok|]; split; [exact Hnamed|].
  destruct (throttle_sample_count (X := openMHA) ab_cycles (ab_cfg_skip 1)
              ltac:(vm_compute; repeat split; first [discriminate|reflexivity])
              ltac:(repeat constructor) Hnamed Hok)
    as (_ & Hin & Hout & Hall).
  split; [rewrite (Hin "a" ltac:(left; reflexivity)); reflexivity|].
  split; [rewrite (Hin "b" ltac:(right; left; reflexivity)); reflexivity|].
  split; [|rewrite Hall; reflexivity].
  apply Hout; intros [H|[H|[]]]; discriminate H.
Defined.

(** X12: [release] after a first cycle that passed the check. *)
Lemma release_rearms_check_witness :
  is_first_run
    (final (ac2lsl_t_process (0, 0) level_ac level_mem
              (prepared_plugin 0 true))) = false /\
  thrown
    (ac2lsl_t_process (0, SCHED_RR) level_ac level_mem
       (fst (release
               (final (ac2lsl_t_process (0, 0) level_ac level_mem
                         (prepared_plugin 0 true)),
                {| vars_lock := true; rt_strict_lock := true |}))))
  = Some Realtime_thread.
Proof.
  split; [reflexivity|].
  apply (release_rearms_check (X := openMHA) (0, SCHED_RR) level_ac level_mem
           (final (ac2lsl_t_process (0, 0) level_ac level_mem
                     (prepared_plugin 0 true)))
           {| vars_lock := true; rt_strict_lock := true |}
           ltac:(reflexivity) ltac:(reflexivity) ltac:(right; reflexivity)).
Defined.

(** X13: [prepare] with an empty list of variables. *)
Lemma prepare_locks_and_names_witness :
  (12 <= 12)%nat /\
  exists o,
    prepare 12 ab_ac plugin_for_all = Some o /\
    thrown o = None /\
    vars (fst (final o)) = ["a"; "b"] /\
    snd (final o) = {| vars_lock := true; rt_strict_lock := true |}.
Proof.
  split; [lia|].
  destruct (prepare_locks_and_names (X := openMHA) 12 ab_ac plugin_for_all (le_n 12))
    as (o & Hrun & Hlocked & _ & _ & Henum).
  destruct (Henum ltac:(reflexivity) [1024] (Returns ["a"; "b"]) ltac:(reflexivity))
    as (Ho & Hvars).
  assert (Hok : thrown o = None) by (rewrite Ho; reflexivity).
  exists o; split; [exact Hrun|]; split; [exact Hok|].
  split; [exact Hvars|exact (Hlocked Hok)].
Defined.

(** X14: the AC space with [a] and [b]. *)
Lemma enumeration_first_answer_witness :
  fst (get_entries ab_ac 1024) <> -3 /\
  get_all_names_from_ac_space 1 ab_ac = Some ([1024], Returns ["a"; "b"]).
Proof.
  assert (Hcode : fst (get_entries ab_ac 1024) <> -3)
    by (vm_compute; discriminate).
  split; [exact Hcode|].
  rewrite (enumeration_first_answer (X := openMHA) ab_ac 1 (le_n 1) Hcode); reflexivity.
Defined.

(** X15: the list that needs 300 KiB is read into a buffer of 512 KiB. *)
Lemma enumeration_buffer_bound_witness :
  needs_buffer large_ac_space 307200 /\
  exists lens names,
    get_all_names_from_ac_space 12 large_ac_space = Some (lens, Returns names) /\
    In 524288 lens /\
    524288 < 2 * 307200.
Proof.
  split; [exact large_ac_space_needs|].
  exists [1024; 2048; 4096; 8192; 16384; 32768; 65536; 131072; 262144; 524288],
    ["level"; "spec"].
  split; [reflexivity|].
  assert (Hin : In 524288
    [1024; 2048; 4096; 8192; 16384; 32768; 65536; 131072; 262144; 524288])
    by (simpl; tauto).
  split; [exact Hin|].
  destruct (enumeration_buffer_bound (X := openMHA) large_ac_space 307200 12 _ _
              large_ac_space_needs ltac:(reflexivity) 524288 Hin) as (_ & [H|H]);
    [discriminate H|exact H].
Defined.

(** X16: the frame of [level]. *)
Lemma built_variable_frame_witness :
  make_var (level_cfg 0) "level"
    level_found
  = Some level_var /\
  send_frame level_var level_mem =
    [Push_sample (info level_var)
       (map (fun z => float_val (float_of_Z z)) [0; 1; 2; 3])].
Proof.
  split; [reflexivity|].
  rewrite (proj1 (proj2 (built_variable_frame (X := openMHA) (level_cfg 0) "level"
             level_found
             level_var level_mem ltac:(reflexivity) ltac:(vm_compute; repeat split; first [discriminate|reflexivity])))).
  reflexivity.
Defined.

(** X17: a cycle in which [b] is missing. *)
Lemma failed_cycle_keeps_throttle_witness :
  thrown (process a_only_ac level_mem ab_cfg) = Some (No_such_variable "b") /\
  skipcnt (final (process a_only_ac level_mem ab_cfg)) = skipcnt ab_cfg /\
  pushes (calls (process a_only_ac level_mem ab_cfg)) = [].
Proof.
  split; [reflexivity|].
  destruct (failed_cycle_keeps_throttle (X := openMHA) a_only_ac level_mem ab_cfg
              (No_such_variable "b") ab_cfg_sorted ltac:(reflexivity))
    as (_ & Hpushes & Hcount & _).
  split; [exact Hcount|exact Hpushes].
Defined.

End FurtherExamples.
